(** * Backtester: a shallow embedding of [backtesting_framework.py]

    The Python class [Backtester] stores a price series and a strategy
    function, and evaluates the strategy with a one-bar execution lag.
    All numbers are Python/numpy floats; the pandas operations the class
    calls ([shift], [fillna], [pct_change], [cumprod], [cummax], [min],
    [mean], [std]) are embedded here with pandas' treatment of NaN as the
    missing-value marker ([skipna=True], the default everywhere).

    The arithmetic is an interface ([FloatOps]) with two instances:
    - [B64]: IEEE 754 binary64, the kernel's primitive floats, on which
      the embedding runs exactly as numpy's scalar operations do;
    - [XR]: exact arithmetic on the reals extended with NaN and the two
      infinities, on which the algebraic and order properties are proved
      (rounding, overflow and the sign of zero are not part of that
      instance).

    Conventions of the embedding:
    - a float64 Series is the list of its values; every Series in [run]
      carries the index of [self.prices], so index alignment is
      position by position;
    - the strategy function is a function from the price values to a
      list-like of signal values (a list or an ndarray, as the example
      strategies return); a strategy function that returns a pandas
      Series is covered by [signal_output] and [run_with];
    - the prices are given as a list or an ndarray, so the index of
      [self.prices] is [RangeIndex(N)];
    - [pct_change] divides by the previous value without forward-filling
      missing prices first;
    - [np.sum] is numpy's pairwise summation ([pairwise_sum]), which
      pandas' [mean] and [std] call when the optional bottleneck
      package is not installed; the sign of a zero sum is not modelled. *)

From Stdlib Require Import String.
From Stdlib Require Import List ZArith Bool Lia Arith.
From Stdlib Require Import Floats.
From Stdlib Require Import Reals Lra.
Import ListNotations.

Set Implicit Arguments.

(** ** Arithmetic interface *)

Class FloatOps : Type := {
  F : Type;
  of_Z : Z -> F;            (* int -> float conversion, and literals *)
  fnan : F;                 (* np.nan *)
  pinf : F;                 (* np.inf *)
  ninf : F;                 (* -np.inf *)
  fadd : F -> F -> F;
  fsub : F -> F -> F;
  fmul : F -> F -> F;
  fdiv : F -> F -> F;
  fsqrt : F -> F;           (* np.sqrt *)
  feqb : F -> F -> bool;    (* == *)
  fleb : F -> F -> bool;    (* <= *)
  isnan : F -> bool         (* pd.isna on a float *)
}.

Definition fzero {FO : FloatOps} : F := of_Z 0.
Definition fone {FO : FloatOps} : F := of_Z 1.

(** The facts about special values that every instance below satisfies:
    NaN is recognised, the literals 0 and 1 are numbers, NaN propagates
    through [/] and [-], and [0 * 0 = 0], [1 + 0 = 1]. *)
Class FloatLaws (FO : FloatOps) : Prop := {
  isnan_fnan : isnan fnan = true;
  isnan_fzero : isnan fzero = false;
  isnan_fone : isnan fone = false;
  isnan_fdiv_r : forall x y, isnan y = true -> isnan (fdiv x y) = true;
  isnan_fsub_l : forall x y, isnan x = true -> isnan (fsub x y) = true;
  fmul_0_0 : fmul fzero fzero = fzero;
  fadd_1_0 : fadd fone fzero = fone
}.

(** ** Python exceptions and the method monad *)

(** The two exceptions pandas can raise inside [run]. *)
Inductive exn : Type :=
| ValueError    (* Series(data, index): length of values does not match length of index *)
| IndexError.   (* .iloc[-1]: single positional indexer is out-of-bounds *)

Definition exn_name (e : exn) : string :=
  match e with
  | ValueError => "ValueError"
  | IndexError => "IndexError"
  end.

Inductive result (A : Type) : Type :=
| Ok (a : A)
| Raise (e : exn).
Arguments Ok {A} a.
Arguments Raise {A} e.

Definition lookup_result {A} (r : result A) : option A :=
  match r with Ok a => Some a | Raise _ => None end.

Section Pandas.
Context {FO : FloatOps}.

(** ** pandas Series operations (float64 Series as [list F]) *)

Definition zipWith {A B C} (f : A -> B -> C) : list A -> list B -> list C :=
  fix go (a : list A) (b : list B) : list C :=
    match a, b with
    | x :: a', y :: b' => f x y :: go a' b'
    | _, _ => []
    end.

(** [s.shift(1)]: every value moves one position later, the first
    position becomes NaN, the last value is dropped. *)
Definition shift1 (s : list F) : list F :=
  match s with
  | [] => []
  | _ :: _ => fnan :: removelast s
  end.

(** [s.fillna(v)] *)
Definition fillna (v : F) (s : list F) : list F :=
  map (fun x => if isnan x then v else x) s.

(** [s.pct_change()] is [s / s.shift(1) - 1]. *)
Definition pct_change (s : list F) : list F :=
  zipWith (fun x y => fsub (fdiv x y) fone) s (shift1 s).

(** numpy's [ufunc.accumulate]: the first element starts the accumulator. *)
Fixpoint accumulate_from (op : F -> F -> F) (acc : F) (l : list F) : list F :=
  match l with
  | [] => []
  | x :: t => let a := op acc x in a :: accumulate_from op a t
  end.

Definition accumulate (op : F -> F -> F) (l : list F) : list F :=
  match l with
  | [] => []
  | x :: t => x :: accumulate_from op x t
  end.

(** numpy's [ufunc.reduce] on a non-empty array. *)
Definition reduce (op : F -> F -> F) (dflt : F) (l : list F) : F :=
  match l with
  | [] => dflt
  | x :: t => fold_left op t x
  end.

(** pandas' [na_accum_func] with [skipna=True]: NaN entries are replaced
    by the neutral value [mask_a] before accumulating and set back to NaN
    in the result, so a NaN does not contaminate the later entries. *)
Definition na_accum_func (op : F -> F -> F) (mask_a : F) (s : list F) : list F :=
  zipWith (fun x r => if isnan x then fnan else r) s
          (accumulate op (map (fun x => if isnan x then mask_a else x) s)).

(** [np.maximum] and [np.minimum] (the first argument wins when it is NaN). *)
Definition np_maximum (a b : F) : F :=
  if isnan a then a else if fleb b a then a else b.
Definition np_minimum (a b : F) : F :=
  if isnan a then a else if fleb a b then a else b.

Definition cumprod (s : list F) : list F := na_accum_func fmul fone s.
Definition cummax (s : list F) : list F := na_accum_func np_maximum ninf s.

(** Number of non-missing values. *)
Definition notna_count (s : list F) : nat :=
  length (filter (fun x => negb (isnan x)) s).

Definition of_nat (n : nat) : F := of_Z (Z.of_nat n).

(** [np.sum] of a float array is numpy's pairwise summation.  Fewer
    than 8 values are added one after the other (numpy starts from
    -0.0, and -0.0 + x is x). *)

(** 8 to 128 values: eight running sums, one for every position modulo
    8, are kept over the full blocks of 8 values. *)
Fixpoint add_blocks (k : nat) (r l : list F) : list F * list F :=
  match k with
  | O => (r, l)
  | S k' => add_blocks k' (zipWith fadd r (firstn 8 l)) (skipn 8 l)
  end.

(** The eight sums are added as a tree, and the values after the last
    full block one after the other. *)
Definition sum_block (a : list F) : F :=
  match add_blocks (length a / 8 - 1) (firstn 8 a) (skipn 8 a) with
  | ([r0; r1; r2; r3; r4; r5; r6; r7], rest) =>
      fold_left fadd rest
                (fadd (fadd (fadd r0 r1) (fadd r2 r3))
                      (fadd (fadd r4 r5) (fadd r6 r7)))
  | (_, _) => reduce fadd fzero a   (* fewer than 8 values *)
  end.

(** More than 128 values: the array is split in two (the first part a
    multiple of 8 long) and the two sums are added.  [fuel] bounds the
    depth of the splitting; the length of the array is enough. *)
Fixpoint pairwise_sum (fuel : nat) (a : list F) : F :=
  if (length a <? 8)%nat then reduce fadd fzero a
  else if (length a <=? 128)%nat then sum_block a
  else match fuel with
       | O => sum_block a
       | S fuel' =>
           let n2 := (length a / 2 - (length a / 2) mod 8)%nat in
           fadd (pairwise_sum fuel' (firstn n2 a)) (pairwise_sum fuel' (skipn n2 a))
       end.

Definition np_sum (l : list F) : F := pairwise_sum (length l) l.

(** [s.min()] with [skipna=True] (nanops.nanmin): NaN entries count as
    [+inf]; the result is NaN when there is no non-missing value. *)
Definition series_min (s : list F) : F :=
  if (notna_count s =? 0)%nat then fnan
  else reduce np_minimum fnan (map (fun x => if isnan x then pinf else x) s).

(** [s.mean()] with [skipna=True] (nanops.nanmean). *)
Definition series_mean (s : list F) : F :=
  let count := notna_count s in
  let the_sum := np_sum (fillna fzero s) in
  if (0 <? count)%nat then fdiv the_sum (of_nat count) else fnan.

(** [s.var()] with [skipna=True, ddof=1] (nanops.nanvar). *)
Definition series_var (s : list F) : F :=
  let n := notna_count s in
  let count := if (n <=? 1)%nat then fnan else of_nat n in
  let d := if (n <=? 1)%nat then fnan else of_nat (n - 1) in
  let avg := fdiv (np_sum (fillna fzero s)) count in
  let sqr := map (fun x => if isnan x then fzero
                           else let t := fsub avg x in fmul t t) s in
  fdiv (np_sum sqr) d.

(** [s.std()] *)
Definition series_std (s : list F) : F := fsqrt (series_var s).

(** [pd.Series(data, index=index)] for [data] a list or an ndarray: the
    values must be as many as the index labels.  ([data] a Series is
    [reindex] below.) *)
Definition Series_with_index (data : list F) (index : list F) : result (list F) :=
  if (length data =? length index)%nat then Ok data else Raise ValueError.

(** [s.iloc[-1]] *)
Definition iloc_last (s : list F) : result F :=
  match s with
  | [] => Raise IndexError
  | x :: t => Ok (last t x)
  end.

(** ** The Backtester object *)

(** The instance attributes set by [__init__]; there are no others. *)
Record Backtester : Type := {
  prices : list F;
  strategy_func : list F -> list F
}.

(** [__init__(self, prices, strategy_func)]: [pd.Series(prices).astype(float)]
    keeps the values; nothing is validated. *)
Definition __init__ (prices : list F) (strategy_func : list F -> list F) : Backtester :=
  {| prices := prices; strategy_func := strategy_func |}.

Record Summary : Type := {
  total_return : F;
  sharpe : F;
  max_drawdown : F
}.

(** A method takes [self] and gives back [self] (as the call left it)
    and either a value or a raised exception. *)
Definition M (A : Type) : Type := Backtester -> Backtester * result A.

Definition ret {A} (a : A) : M A := fun self => (self, Ok a).

Definition bind {A B} (m : M A) (k : A -> M B) : M B :=
  fun self =>
    match m self with
    | (self', Ok a) => k a self'
    | (self', Raise e) => (self', Raise e)
    end.

(** Reading an attribute of [self]. *)
Definition attr {A} (get : Backtester -> A) : M A := fun self => (self, Ok (get self)).

(** A pandas call that may raise. *)
Definition lift {A} (r : result A) : M A := fun self => (self, r).

Notation "x <- m ;; k" := (bind m (fun x => k))
  (at level 61, m at next level, right associativity).

(** [compute_returns(self)] *)
Definition compute_returns : M (list F) :=
  p <- attr prices ;;
  ret (fillna fzero (pct_change p)).

Definition excess_returns (rets : list F) (risk_free : F) : list F :=
  map (fun r => fsub r (fdiv risk_free (of_Z 252))) rets.

(** [_sharpe(self, rets, risk_free=0.0)] *)
Definition _sharpe (rets : list F) (risk_free : F) : M F :=
  let excess := excess_returns rets risk_free in
  if feqb (series_std excess) fzero then ret fzero
  else ret (fdiv (fmul (fsqrt (of_Z 252)) (series_mean excess)) (series_std excess)).

(** [_max_drawdown(self, equity)] *)
Definition _max_drawdown (equity : list F) : M F :=
  let roll_max := cummax equity in
  let dd := zipWith (fun e m => fsub (fdiv e m) fone) equity roll_max in
  ret (series_min dd).

(** [run(self)] *)
Definition run : M (list F * list F * Summary) :=
  rets <- compute_returns ;;
  f <- attr strategy_func ;;
  p <- attr prices ;;
  signals <- lift (Series_with_index (f p) p) ;;
  (* one-bar execution lag *)
  let shifted_signals := fillna fzero (shift1 signals) in
  let strat_rets := zipWith fmul shifted_signals rets in
  let equity := cumprod (map (fadd fone) strat_rets) in
  last_equity <- lift (iloc_last equity) ;;
  sh <- _sharpe strat_rets fzero ;;
  md <- _max_drawdown equity ;;
  ret (strat_rets, equity,
       {| total_return := fsub last_equity fone;
          sharpe := sh;
          max_drawdown := md |}).

(** ** A strategy function that returns a Series

    When [self.strategy_func(self.prices)] is a pandas Series,
    [pd.Series(series, index=self.prices.index)] compares no lengths: it
    reindexes the Series to the index of the prices.  The labels of the
    Series are integers here, as those of [RangeIndex(N)] are. *)

Inductive signal_output : Type :=
| ArrayOutput (values : list F)          (* a list or an ndarray *)
| SeriesOutput (items : list (Z * F)).   (* a Series: label and value, in order *)

(** [RangeIndex(n)]: the labels 0, 1, ..., n - 1. *)
Definition RangeIndex (n : nat) : list Z := map Z.of_nat (seq 0 n).

(** [not index.is_unique] *)
Fixpoint has_duplicates (labels : list Z) : bool :=
  match labels with
  | [] => false
  | k :: t => existsb (Z.eqb k) t || has_duplicates t
  end.

(** [index.equals(other)] *)
Fixpoint index_equals (a b : list Z) : bool :=
  match a, b with
  | [], [] => true
  | x :: a', y :: b' => Z.eqb x y && index_equals a' b'
  | _, _ => false
  end.

(** The value at [label], NaN when the Series has no such label. *)
Fixpoint label_lookup (items : list (Z * F)) (label : Z) : F :=
  match items with
  | [] => fnan
  | (k, v) :: t => if Z.eqb k label then v else label_lookup t label
  end.

(** [series.reindex(index)]: the values as they are when the index is
    the Series' own; otherwise the value at every label of [index], NaN
    where the Series has none, and [ValueError] (cannot reindex on an
    axis with duplicate labels) when the labels of the Series repeat. *)
Definition reindex (items : list (Z * F)) (index : list Z) : result (list F) :=
  if index_equals (map fst items) index then Ok (map snd items)
  else if has_duplicates (map fst items) then Raise ValueError
  else Ok (map (label_lookup items) index).

(** [pd.Series(out, index=self.prices.index)] *)
Definition signal_Series (out : signal_output) (p : list F) : result (list F) :=
  match out with
  | ArrayOutput values => Series_with_index values p
  | SeriesOutput items => reindex items (RangeIndex (length p))
  end.

(** [run(self)] when [self.strategy_func] is [strategy]. *)
Definition run_with (strategy : list F -> signal_output)
  : M (list F * list F * Summary) :=
  rets <- compute_returns ;;
  p <- attr prices ;;
  signals <- lift (signal_Series (strategy p) p) ;;
  (* one-bar execution lag *)
  let shifted_signals := fillna fzero (shift1 signals) in
  let strat_rets := zipWith fmul shifted_signals rets in
  let equity := cumprod (map (fadd fone) strat_rets) in
  last_equity <- lift (iloc_last equity) ;;
  sh <- _sharpe strat_rets fzero ;;
  md <- _max_drawdown equity ;;
  ret (strat_rets, equity,
       {| total_return := fsub last_equity fone;
          sharpe := sh;
          max_drawdown := md |}).

(** ** Names for the local variables of [run]

    [run] computes its result from the prices and the signal series in
    a fixed sequence of assignments; the values of its locals are named
    here so that the properties below can speak about them. *)

(** [rets] *)
Definition returns_of (p : list F) : list F := fillna fzero (pct_change p).

(** [shifted_signals] *)
Definition shifted_signals_of (signals : list F) : list F :=
  fillna fzero (shift1 signals).

(** [strat_rets] *)
Definition strat_rets_of (p signals : list F) : list F :=
  zipWith fmul (shifted_signals_of signals) (returns_of p).

(** [equity] *)
Definition equity_of (strat_rets : list F) : list F :=
  cumprod (map (fadd fone) strat_rets).

(** The value [_sharpe] returns. *)
Definition sharpe_of (rets : list F) (risk_free : F) : F :=
  let excess := excess_returns rets risk_free in
  if feqb (series_std excess) fzero then fzero
  else fdiv (fmul (fsqrt (of_Z 252)) (series_mean excess)) (series_std excess).

(** [dd] in [_max_drawdown], and the value it returns. *)
Definition drawdowns_of (equity : list F) : list F :=
  zipWith (fun e m => fsub (fdiv e m) fone) equity (cummax equity).
Definition drawdown_of (equity : list F) : F := series_min (drawdowns_of equity).

(** The summary record [run] builds. *)
Definition summary_of (strat_rets equity : list F) (last_equity : F) : Summary :=
  {| total_return := fsub last_equity fone;
     sharpe := sharpe_of strat_rets fzero;
     max_drawdown := drawdown_of equity |}.

(** The product over j = 0..i of [l[j]], taken in index order. *)
Definition product_0_to (i : nat) (l : list F) : F :=
  reduce fmul fone (firstn (S i) l).

End Pandas.

Notation "x <- m ;; k" := (bind m (fun x => k))
  (at level 61, m at next level, right associativity).

(** ** Instance 1: IEEE 754 binary64 *)

(** Conversion of a Python int of magnitude below 2^63. *)
Definition b64_of_Z (z : Z) : float :=
  match z with
  | Z0 => PrimFloat.zero
  | Zpos _ => PrimFloat.of_uint63 (Uint63.of_Z z)
  | Zneg p => PrimFloat.opp (PrimFloat.of_uint63 (Uint63.of_Z (Zpos p)))
  end.

Definition B64 : FloatOps := {|
  F := float;
  of_Z := b64_of_Z;
  fnan := PrimFloat.nan;
  pinf := PrimFloat.infinity;
  ninf := PrimFloat.neg_infinity;
  fadd := PrimFloat.add;
  fsub := PrimFloat.sub;
  fmul := PrimFloat.mul;
  fdiv := PrimFloat.div;
  fsqrt := PrimFloat.sqrt;
  feqb := PrimFloat.eqb;
  fleb := PrimFloat.leb;
  isnan := PrimFloat.is_nan
|}.

(** ** Instance 2: exact arithmetic on the extended reals *)

Inductive xreal : Type :=
| XNan
| XInf (neg : bool)
| XFin (r : R).

(** Sign bit of a real (zero counts as positive: there is one zero). *)
Definition Rneg (r : R) : bool := if Rlt_dec r 0 then true else false.

Definition xadd (x y : xreal) : xreal :=
  match x, y with
  | XNan, _ | _, XNan => XNan
  | XInf s, XInf t => if Bool.eqb s t then XInf s else XNan
  | XInf s, XFin _ => XInf s
  | XFin _, XInf t => XInf t
  | XFin a, XFin b => XFin (a + b)
  end.

Definition xsub (x y : xreal) : xreal :=
  match x, y with
  | XNan, _ | _, XNan => XNan
  | XInf s, XInf t => if Bool.eqb s t then XNan else XInf s
  | XInf s, XFin _ => XInf s
  | XFin _, XInf t => XInf (negb t)
  | XFin a, XFin b => XFin (a - b)
  end.

Definition xmul (x y : xreal) : xreal :=
  match x, y with
  | XNan, _ | _, XNan => XNan
  | XInf s, XInf t => XInf (xorb s t)
  | XInf s, XFin r | XFin r, XInf s =>
      if Req_dec_T r 0 then XNan else XInf (xorb s (Rneg r))
  | XFin a, XFin b => XFin (a * b)
  end.

Definition xdiv (x y : xreal) : xreal :=
  match x, y with
  | XNan, _ | _, XNan => XNan
  | XInf _, XInf _ => XNan
  | XInf s, XFin r => XInf (xorb s (Rneg r))
  | XFin _, XInf _ => XFin 0
  | XFin a, XFin b =>
      if Req_dec_T b 0
      then (if Req_dec_T a 0 then XNan else XInf (Rneg a))
      else XFin (a / b)
  end.

Definition xsqrt (x : xreal) : xreal :=
  match x with
  | XNan => XNan
  | XInf s => if s then XNan else XInf false
  | XFin r => if Rlt_dec r 0 then XNan else XFin (R_sqrt.sqrt r)
  end.

Definition xeqb (x y : xreal) : bool :=
  match x, y with
  | XInf s, XInf t => Bool.eqb s t
  | XFin a, XFin b => if Req_dec_T a b then true else false
  | _, _ => false
  end.

Definition xleb (x y : xreal) : bool :=
  match x, y with
  | XNan, _ | _, XNan => false
  | XInf s, XInf t => orb s (negb t)
  | XInf s, XFin _ => s
  | XFin _, XInf t => negb t
  | XFin a, XFin b => if Rle_dec a b then true else false
  end.

Definition xisnan (x : xreal) : bool :=
  match x with XNan => true | _ => false end.

Definition XR : FloatOps := {|
  F := xreal;
  of_Z := fun z => XFin (IZR z);
  fnan := XNan;
  pinf := XInf false;
  ninf := XInf true;
  fadd := xadd;
  fsub := xsub;
  fmul := xmul;
  fdiv := xdiv;
  fsqrt := xsqrt;
  feqb := xeqb;
  fleb := xleb;
  isnan := xisnan
|}.

(** ** Concrete inputs *)

(** A strategy that is always flat, and one that is always long. *)
Definition flat_strategy {FO : FloatOps} (p : list F) : list F := map (fun _ => fzero) p.
Definition long_strategy {FO : FloatOps} (p : list F) : list F := map (fun _ => fone) p.

(** A strategy whose signals lie outside {-1, 0, 1}. *)
Definition leveraged_strategy (p : list (@F B64)) : list (@F B64) :=
  map (fun _ => 5%float) p.

(** A strategy that returns one signal whatever the number of bars. *)
Definition short_output_strategy (p : list (@F B64)) : list (@F B64) := [1%float].

(** A strategy that returns a Series of one signal, labelled 0. *)
Definition short_series_strategy (p : list (@F B64)) : @signal_output B64 :=
  @SeriesOutput B64 [(0%Z, 1%float)].

(** A strategy that returns a Series with the label 0 twice. *)
Definition repeated_label_strategy (p : list (@F B64)) : @signal_output B64 :=
  @SeriesOutput B64 [(0%Z, 1%float); (0%Z, 1%float)].

(** A strategy that is long on the fourth bar only. *)
Definition fourth_bar_strategy (p : list (@F B64)) : list (@F B64) :=
  [0%float; 0%float; 0%float; 1%float].

Definition no_bars : list (@F B64) := [].
Definition one_bar : list (@F B64) := [100%float].
Definition three_bars : list (@F B64) := [100%float; 110%float; 99%float].
Definition three_bars_exact : list (@F XR) := [XFin 100; XFin 110; XFin 99].

(** Four bars, the second at price 0; two bars at price 0; two bars,
    the second a tenth higher. *)
Definition zero_price_bars : list (@F B64) := [100%float; 0%float; 50%float; 60%float].
Definition two_zero_bars : list (@F B64) := [0%float; 0%float].
Definition two_bars : list (@F B64) := [100%float; 110%float].

(** Eight returns of one tenth. *)
Definition eight_equal_returns : list (@F B64) := repeat (1 / 10)%float 8.

(** ** Specification-side definitions on the reals *)

(** max(e[0..i]) *)
Definition prefix_max (e : list R) (i : nat) : R :=
  match firstn (S i) e with
  | [] => 0%R
  | x :: t => fold_left Rmax t x
  end.

(** The drawdown at bar [i]: e[i] / max(e[0..i]) - 1. *)
Definition drawdown_at (e : list R) (i : nat) : R :=
  (nth i e 0 / prefix_max e i - 1)%R.

(** min over all i of the drawdown at bar i. *)
Definition min_drawdown (e : list R) : R :=
  match map (drawdown_at e) (seq 0 (length e)) with
  | [] => 0%R
  | x :: t => fold_left Rmin t x
  end.

(** A curve that never falls from one bar to the next. *)
Definition non_decreasing (e : list R) : Prop :=
  forall i, (S i < length e)%nat -> (nth i e 0 <= nth (S i) e 0)%R.

(** A bar whose value lies strictly below an earlier one. *)
Definition has_strict_dip (e : list R) : Prop :=
  exists j i, (j < i < length e)%nat /\ (nth i e 0 < nth j e 0)%R.

(** ** The example strategies ([backtesting_examples.py]) *)

(** Further facts about NaN that both instances satisfy: a comparison
    with NaN is false, and the square root of NaN is NaN. *)
Class NanLaws (FO : FloatOps) : Prop := {
  fleb_nan_l : forall x y, isnan x = true -> fleb x y = false;
  fleb_nan_r : forall x y, isnan y = true -> fleb x y = false;
  feqb_nan_l : forall x y, isnan x = true -> feqb x y = false;
  isnan_fsqrt : forall x, isnan x = true -> isnan (fsqrt x) = true
}.

Section Strategies.
Context {FO : FloatOps}.

(** [a < b] and [a > b] on floats, from [<=] and [==]. *)
Definition fltb (a b : F) : bool := fleb a b && negb (feqb a b).
Definition fgtb (a b : F) : bool := fltb b a.

(** Unary minus, as the product with -1. *)
Definition fneg (x : F) : F := fmul (of_Z (-1)) x.

(** The values [s[i-w+1 .. i]] of the window that ends at bar [i]. *)
Definition window_at (w i : nat) (s : list F) : list F :=
  firstn w (skipn (S i - w) s).

(** [s.rolling(w).agg()] for a fixed window of [w] bars: the result at
    bar [i] is missing until [w] bars are available and when the window
    holds a missing value ([min_periods] defaults to [w]); otherwise it
    is the aggregate of the window's values.  pandas updates the
    aggregate from bar to bar as values enter and leave the window
    instead of aggregating every window anew: in exact arithmetic
    ([XR]) that is the same number, on binary64 the two can differ in
    the last bits.  The properties of the strategies that depend on
    the value of the aggregate are proved on [XR]. *)
Definition rolling (w : nat) (agg : list F -> F) (s : list F) : list F :=
  map (fun i => if (S i <? w)%nat then fnan
                else if existsb isnan (window_at w i s) then fnan
                     else agg (window_at w i s))
      (seq 0 (length s)).

(** [b.astype(int)] on a boolean *)
Definition astype_int (b : bool) : Z := if b then 1%Z else 0%Z.

(** [ma_crossover_strategy(prices, short, long)]: the int array
    [(ma_s > ma_l).astype(int) - (ma_s < ma_l).astype(int)]. *)
Definition ma_crossover_strategy (prices : list F) (short long : nat) : list Z :=
  let ma_s := rolling short series_mean prices in
  let ma_l := rolling long series_mean prices in
  zipWith (fun s l => (astype_int (fgtb s l) - astype_int (fltb s l))%Z) ma_s ma_l.

(** The z-score series of [mean_reversion_strategy]. *)
Definition z_scores (prices : list F) (lookback : nat) : list F :=
  let mean := rolling lookback series_mean prices in
  let std := rolling lookback series_std prices in
  zipWith fdiv (zipWith fsub prices mean) std.

(** [mean_reversion_strategy(prices, lookback, z_entry)]: the int array
    [np.where(z < -z_entry, 1, np.where(z > z_entry, -1, 0))]. *)
Definition mean_reversion_strategy (prices : list F) (lookback : nat) (z_entry : F)
  : list Z :=
  map (fun z => if fltb z (fneg z_entry) then 1%Z
                else if fgtb z z_entry then (-1)%Z else 0%Z)
      (z_scores prices lookback).

(** The keyword defaults: [short=20, long=50] and [lookback=20, z_entry=1.0]. *)
Definition ma_crossover_default (prices : list F) : list Z :=
  ma_crossover_strategy prices 20 50.
Definition mean_reversion_default (prices : list F) : list Z :=
  mean_reversion_strategy prices 20 fone.

(** A strategy that returns an int array, as a [strategy_func] of the
    Backtester: the int64 signal Series is converted to float64, value
    by value, when [run] shifts it. *)
Definition int_signals (f : list F -> list Z) : list F -> list F :=
  fun p => map of_Z (f p).

End Strategies.

(** A price series that rises at every bar. *)
Definition strictly_increasing (ps : list R) : Prop :=
  forall a b, (a < b < length ps)%nat -> (nth a ps 0 < nth b ps 0)%R.

(** A price series that falls at every bar. *)
Definition strictly_decreasing (ps : list R) : Prop :=
  forall a b, (a < b < length ps)%nat -> (nth b ps 0 < nth a ps 0)%R.

(** The sum of a list of reals. *)
Definition Rlist_sum (l : list R) : R := fold_right Rplus 0%R l.





(** * Properties *)

(** ** The two instances satisfy the special-value laws *)

Lemma SFeqb_self_false (s : spec_float) : SFeqb s s = false -> s = S754_nan.
Proof.
  destruct s as [sg|sg| |sg m e]; unfold SFeqb, SFcompare; try reflexivity.
  - destruct sg; discriminate.
  - destruct sg; discriminate.
  - rewrite Z.compare_refl, Pos.compare_refl. destruct sg; discriminate.
Qed.

Lemma b64_is_nan_spec (x : float) :
  PrimFloat.is_nan x = true <-> Prim2SF x = S754_nan.
Proof.
  unfold PrimFloat.is_nan. rewrite eqb_spec, negb_true_iff. split.
  - apply SFeqb_self_false.
  - intros ->. reflexivity.
Qed.

Lemma B64_laws : FloatLaws B64.
Proof.
  split; try reflexivity; cbn [isnan fdiv fsub B64]; intros x y Hn.
  - apply b64_is_nan_spec in Hn. apply b64_is_nan_spec.
    rewrite div_spec, Hn. destruct (Prim2SF x); reflexivity.
  - apply b64_is_nan_spec in Hn. apply b64_is_nan_spec.
    rewrite sub_spec, Hn. reflexivity.
Qed.

Lemma XR_laws : FloatLaws XR.
Proof.
  split; cbn; try reflexivity.
  - intros x y Hn. destruct y; try discriminate. destruct x; reflexivity.
  - intros x y Hn. destruct x; try discriminate. reflexivity.
  - f_equal. ring.
  - f_equal. ring.
Qed.

(** ** List facts about the Series operations *)

Section SeriesFacts.
Context {FO : FloatOps}.

Lemma zipWith_length {A B C} (f : A -> B -> C) (a : list A) (b : list B) :
  length (zipWith f a b) = Nat.min (length a) (length b).
Proof.
  revert b. induction a as [|x a IH]; intros [|y b]; simpl; auto.
Qed.

Lemma zipWith_nth {A B C} (f : A -> B -> C) (a : list A) (b : list B)
      (i : nat) (da : A) (db : B) (dc : C) :
  i < length a -> i < length b ->
  nth i (zipWith f a b) dc = f (nth i a da) (nth i b db).
Proof.
  revert b i. induction a as [|x a IH]; intros [|y b] i Ha Hb; simpl in *; try lia.
  destruct i as [|i]; [reflexivity|]. apply IH; lia.
Qed.

Lemma removelast_length' {A} (l : list A) :
  length (removelast l) = pred (length l).
Proof.
  induction l as [|x [|y t] IH]; simpl in *; auto.
Qed.

Lemma removelast_nth {A} (l : list A) (i : nat) (d : A) :
  S i < length l -> nth i (removelast l) d = nth i l d.
Proof.
  revert i. induction l as [|x [|y t] IH]; intros i Hi; simpl in *; try lia.
  destruct i as [|i]; [reflexivity|]. apply IH. lia.
Qed.

Lemma shift1_length (s : list F) : length (shift1 s) = length s.
Proof.
  destruct s as [|x t]; [reflexivity|].
  unfold shift1. cbn [length]. rewrite removelast_length'. reflexivity.
Qed.

Lemma shift1_nth_0 (s : list F) (d : F) : s <> [] -> nth 0 (shift1 s) d = fnan.
Proof. destruct s; [congruence | reflexivity]. Qed.

Lemma shift1_nth_S (s : list F) (i : nat) (d : F) :
  S i < length s -> nth (S i) (shift1 s) d = nth i s d.
Proof.
  destruct s as [|x t]; simpl; [lia|]. intros Hi.
  change (nth i (removelast (x :: t)) d = nth i (x :: t) d).
  apply removelast_nth. simpl. lia.
Qed.

Lemma fillna_length (v : F) (s : list F) : length (fillna v s) = length s.
Proof. apply length_map. Qed.

Lemma fillna_nth (v : F) (s : list F) (i : nat) (d : F) :
  i < length s ->
  nth i (fillna v s) d = if isnan (nth i s d) then v else nth i s d.
Proof.
  intros Hi. unfold fillna.
  rewrite (nth_indep _ d (if isnan d then v else d)) by (rewrite length_map; exact Hi).
  apply (map_nth (fun x => if isnan x then v else x)).
Qed.

Lemma pct_change_length (s : list F) : length (pct_change s) = length s.
Proof.
  unfold pct_change. rewrite zipWith_length, shift1_length. apply Nat.min_id.
Qed.

Lemma returns_of_length (p : list F) : length (returns_of p) = length p.
Proof. unfold returns_of. rewrite fillna_length. apply pct_change_length. Qed.

Lemma shifted_signals_of_length (s : list F) :
  length (shifted_signals_of s) = length s.
Proof. unfold shifted_signals_of. rewrite fillna_length. apply shift1_length. Qed.

Lemma strat_rets_of_length (p s : list F) :
  length s = length p -> length (strat_rets_of p s) = length p.
Proof.
  intros H. unfold strat_rets_of.
  rewrite zipWith_length, shifted_signals_of_length, returns_of_length. lia.
Qed.

Lemma accumulate_from_length (op : F -> F -> F) (acc : F) (l : list F) :
  length (accumulate_from op acc l) = length l.
Proof. revert acc. induction l; intros; simpl; auto. Qed.

Lemma accumulate_length (op : F -> F -> F) (l : list F) :
  length (accumulate op l) = length l.
Proof. destruct l; simpl; [|rewrite accumulate_from_length]; reflexivity. Qed.

Lemma na_accum_func_length (op : F -> F -> F) (m : F) (s : list F) :
  length (na_accum_func op m s) = length s.
Proof.
  unfold na_accum_func.
  rewrite zipWith_length, accumulate_length, length_map. apply Nat.min_id.
Qed.

Lemma equity_of_length (sr : list F) : length (equity_of sr) = length sr.
Proof. unfold equity_of, cumprod. rewrite na_accum_func_length. apply length_map. Qed.

(** [accumulate] lists the reductions of the prefixes. *)
Lemma accumulate_from_nth (op : F -> F -> F) (acc : F) (l : list F) (i : nat) (d : F) :
  i < length l ->
  nth i (accumulate_from op acc l) d = fold_left op (firstn (S i) l) acc.
Proof.
  revert acc i. induction l as [|x t IH]; intros acc i Hi; simpl in *; [lia|].
  destruct i as [|i]; [reflexivity|]. rewrite IH by lia. reflexivity.
Qed.

Lemma accumulate_nth (op : F -> F -> F) (l : list F) (i : nat) (d e : F) :
  i < length l ->
  nth i (accumulate op l) d = reduce op e (firstn (S i) l).
Proof.
  destruct l as [|x t]; simpl; [lia|]. intros Hi.
  destruct i as [|i]; [reflexivity|].
  rewrite accumulate_from_nth by lia. reflexivity.
Qed.

Lemma iloc_last_nth (s : list F) (d : F) :
  s <> [] -> iloc_last s = Ok (nth (length s - 1) s d).
Proof.
  destruct s as [|x t]; [congruence|]. intros _. unfold iloc_last. f_equal.
  revert x. induction t as [|y t IH]; intros x; [reflexivity|].
  cbn [last length]. rewrite IH. simpl. rewrite Nat.sub_0_r.
  destruct t; reflexivity.
Qed.

End SeriesFacts.

(** ** What [run] and its helpers return *)

Section Methods.
Context {FO : FloatOps}.

Lemma compute_returns_eq (self : Backtester) :
  compute_returns self = (self, Ok (returns_of (prices self))).
Proof. reflexivity. Qed.

Lemma _sharpe_eq (rets : list F) (risk_free : F) (self : Backtester) :
  _sharpe rets risk_free self = (self, Ok (sharpe_of rets risk_free)).
Proof.
  unfold _sharpe, sharpe_of.
  destruct (feqb (series_std (excess_returns rets risk_free)) fzero); reflexivity.
Qed.

Lemma _max_drawdown_eq (equity : list F) (self : Backtester) :
  _max_drawdown equity self = (self, Ok (drawdown_of equity)).
Proof. reflexivity. Qed.

(** [run] in one piece: the two places where it can raise, and the
    triple it returns otherwise. *)
Lemma run_eq (self : Backtester) :
  run self =
  (self,
   match Series_with_index (strategy_func self (prices self)) (prices self) with
   | Raise e => Raise e
   | Ok signals =>
       let strat_rets := strat_rets_of (prices self) signals in
       let equity := equity_of strat_rets in
       match iloc_last equity with
       | Raise e => Raise e
       | Ok last_equity =>
           Ok (strat_rets, equity, summary_of strat_rets equity last_equity)
       end
   end).
Proof.
  unfold run, bind. rewrite compute_returns_eq. unfold attr, lift.
  destruct (Series_with_index _ _) as [signals|e]; [|reflexivity].
  fold (shifted_signals_of signals).
  fold (strat_rets_of (prices self) signals).
  fold (equity_of (strat_rets_of (prices self) signals)).
  destruct (iloc_last _) as [l|e]; [|reflexivity].
  rewrite _sharpe_eq, _max_drawdown_eq. reflexivity.
Qed.

Lemma run_self (self : Backtester) : fst (run self) = self.
Proof. rewrite run_eq. reflexivity. Qed.

(** With at least one bar and as many signals as bars, [run] returns. *)
Lemma run_ok (self : Backtester) :
  prices self <> [] ->
  length (strategy_func self (prices self)) = length (prices self) ->
  let signals := strategy_func self (prices self) in
  let strat_rets := strat_rets_of (prices self) signals in
  let equity := equity_of strat_rets in
  run self =
  (self, Ok (strat_rets, equity,
             summary_of strat_rets equity (nth (length (prices self) - 1) equity fnan))).
Proof.
  intros Hne Hlen signals strat_rets equity. rewrite run_eq.
  unfold Series_with_index. rewrite Hlen, Nat.eqb_refl.
  fold signals strat_rets equity.
  assert (Hl : length equity = length (prices self)).
  { unfold equity. rewrite equity_of_length. apply strat_rets_of_length, Hlen. }
  rewrite (iloc_last_nth (s := equity) fnan).
  - rewrite Hl. reflexivity.
  - intros E. rewrite E in Hl. destruct (prices self); [congruence | discriminate].
Qed.

(** Without a bar, or with a signal series of another length, [run] raises. *)
Lemma run_raises (self : Backtester) :
  prices self = [] \/
  length (strategy_func self (prices self)) <> length (prices self) ->
  run self =
  (self,
   Raise (if (length (strategy_func self (prices self)) =? length (prices self))%nat
          then IndexError else ValueError)).
Proof.
  intros H. rewrite run_eq. f_equal. unfold Series_with_index.
  destruct (Nat.eqb_spec (length (strategy_func self (prices self)))
                         (length (prices self))) as [E|E]; [|reflexivity].
  destruct H as [H|H]; [|contradiction].
  rewrite H in *. simpl in E.
  destruct (strategy_func self []); [reflexivity | discriminate].
Qed.

(** [run_with] in one piece. *)
Lemma run_with_eq (strategy : list F -> signal_output) (self : Backtester) :
  run_with strategy self =
  (self,
   match signal_Series (strategy (prices self)) (prices self) with
   | Raise e => Raise e
   | Ok signals =>
       let strat_rets := strat_rets_of (prices self) signals in
       let equity := equity_of strat_rets in
       match iloc_last equity with
       | Raise e => Raise e
       | Ok last_equity =>
           Ok (strat_rets, equity, summary_of strat_rets equity last_equity)
       end
   end).
Proof.
  unfold run_with, bind. rewrite compute_returns_eq. unfold attr, lift.
  destruct (signal_Series _ _) as [signals|e]; [|reflexivity].
  fold (shifted_signals_of signals).
  fold (strat_rets_of (prices self) signals).
  fold (equity_of (strat_rets_of (prices self) signals)).
  destruct (iloc_last _) as [l|e]; [|reflexivity].
  rewrite _sharpe_eq, _max_drawdown_eq. reflexivity.
Qed.

(** For a strategy that returns a list or an ndarray, [run_with] is [run]. *)
Lemma run_with_array (self : Backtester) :
  run_with (fun p => ArrayOutput (strategy_func self p)) self = run self.
Proof. rewrite run_with_eq, run_eq. reflexivity. Qed.

(** [equity.iloc[-1]] fails on an empty price series only. *)
Lemma iloc_last_equity (p signals : list F) :
  length signals = length p ->
  iloc_last (equity_of (strat_rets_of p signals)) =
  match p with
  | [] => Raise IndexError
  | _ :: _ => Ok (nth (length p - 1) (equity_of (strat_rets_of p signals)) fnan)
  end.
Proof.
  intros Hl.
  assert (He : length (equity_of (strat_rets_of p signals)) = length p)
    by (rewrite equity_of_length; apply strat_rets_of_length, Hl).
  destruct p as [|x t].
  - destruct (equity_of _); [reflexivity | discriminate].
  - rewrite (iloc_last_nth (s := equity_of (strat_rets_of (x :: t) signals)) fnan).
    + rewrite He. reflexivity.
    + intros E. rewrite E in He. discriminate.
Qed.

Lemma index_equals_eq (a b : list Z) : index_equals a b = true -> a = b.
Proof.
  revert b. induction a as [|x a IH]; intros [|y b] H; simpl in H;
    try discriminate; [reflexivity|].
  apply andb_prop in H. destruct H as [Hx Hab].
  apply Z.eqb_eq in Hx. subst y. f_equal. apply IH, Hab.
Qed.

Lemma RangeIndex_length (n : nat) : length (RangeIndex n) = n.
Proof. unfold RangeIndex. rewrite length_map. apply length_seq. Qed.

Lemma RangeIndex_unique (n : nat) : has_duplicates (RangeIndex n) = false.
Proof.
  unfold RangeIndex. generalize 0 as a.
  induction n as [|n IH]; intros a; [reflexivity|].
  cbn [seq map has_duplicates]. rewrite IH, orb_false_r.
  destruct (existsb _ _) eqn:E; [|reflexivity].
  apply existsb_exists in E. destruct E as (x & Hx & Hk).
  apply in_map_iff in Hx. destruct Hx as (b & <- & Hb). apply in_seq in Hb.
  apply Z.eqb_eq in Hk. lia.
Qed.

(** A Series whose labels do not repeat is reindexed to any index. *)
Lemma reindex_unique (items : list (Z * F)) (index : list Z) :
  has_duplicates (map fst items) = false ->
  exists signals, reindex items index = Ok signals /\ length signals = length index.
Proof.
  intros H. unfold reindex. destruct (index_equals _ _) eqn:E.
  - exists (map snd items). split; [reflexivity|].
    apply index_equals_eq in E. rewrite <- E, !length_map. reflexivity.
  - rewrite H. exists (map (label_lookup items) index).
    split; [reflexivity | apply length_map].
Qed.

Lemma reindex_duplicates (items : list (Z * F)) (n : nat) :
  has_duplicates (map fst items) = true ->
  reindex items (RangeIndex n) = Raise ValueError.
Proof.
  intros H. unfold reindex. destruct (index_equals _ _) eqn:E.
  - apply index_equals_eq in E. rewrite E, RangeIndex_unique in H. discriminate.
  - rewrite H. reflexivity.
Qed.

End Methods.

(** ** The lag, the strategy returns and the equity curve *)

Section Lag.
Context {FO : FloatOps} {FL : FloatLaws FO}.

Lemma map_nth_lt {A B} (f : A -> B) (l : list A) (i : nat) (da : A) (db : B) :
  i < length l -> nth i (map f l) db = f (nth i l da).
Proof.
  intros Hi. rewrite (nth_indep _ db (f da)) by (rewrite length_map; exact Hi).
  apply map_nth.
Qed.

(** The first return is the filled-in missing value: [p[0] / NaN - 1]. *)
Lemma returns_of_nth_0 (p : list F) (d : F) :
  p <> [] -> nth 0 (returns_of p) d = fzero.
Proof.
  destruct p as [|x t]; [congruence|]. intros _.
  unfold returns_of, pct_change, shift1, fillna. cbn [zipWith map nth].
  rewrite isnan_fsub_l; [reflexivity|].
  apply isnan_fdiv_r, isnan_fnan.
Qed.

Lemma returns_of_nth_S (p : list F) (i : nat) (d : F) :
  S i < length p ->
  nth (S i) (returns_of p) d =
  let r := fsub (fdiv (nth (S i) p d) (nth i p d)) fone in
  if isnan r then fzero else r.
Proof.
  intros Hi. unfold returns_of.
  rewrite fillna_nth by (rewrite pct_change_length; exact Hi).
  unfold pct_change.
  rewrite (zipWith_nth _ _ _ d d d) by (rewrite ?shift1_length; exact Hi).
  rewrite shift1_nth_S by exact Hi. reflexivity.
Qed.

Lemma shifted_signals_of_nth_0 (s : list F) (d : F) :
  s <> [] -> nth 0 (shifted_signals_of s) d = fzero.
Proof.
  destruct s as [|x t]; [congruence|]. intros _.
  unfold shifted_signals_of, shift1, fillna. cbn [map nth].
  rewrite isnan_fnan. reflexivity.
Qed.

Lemma shifted_signals_of_nth_S (s : list F) (i : nat) (d : F) :
  S i < length s ->
  nth (S i) (shifted_signals_of s) d =
  if isnan (nth i s d) then fzero else nth i s d.
Proof.
  intros Hi. unfold shifted_signals_of.
  rewrite fillna_nth by (rewrite shift1_length; exact Hi).
  rewrite shift1_nth_S by exact Hi. reflexivity.
Qed.

Lemma strat_rets_of_nth (p s : list F) (i : nat) (d : F) :
  length s = length p -> i < length p ->
  nth i (strat_rets_of p s) d =
  fmul (nth i (shifted_signals_of s) d) (nth i (returns_of p) d).
Proof.
  intros Hl Hi. unfold strat_rets_of.
  apply zipWith_nth.
  - rewrite shifted_signals_of_length. lia.
  - rewrite returns_of_length. exact Hi.
Qed.

(** No position on the first bar. *)
Lemma strat_rets_of_nth_0 (p s : list F) (d : F) :
  length s = length p -> p <> [] -> nth 0 (strat_rets_of p s) d = fzero.
Proof.
  intros Hl Hne.
  assert (0 < length p) by (destruct p; [congruence | simpl; lia]).
  rewrite strat_rets_of_nth by assumption.
  assert (Hs : s <> []) by (destruct s; [simpl in *; lia | discriminate]).
  rewrite shifted_signals_of_nth_0 by exact Hs.
  rewrite returns_of_nth_0 by exact Hne.
  apply fmul_0_0.
Qed.

Lemma firstn_fill_numbers (m : F) (s : list F) (i : nat) (d : F) :
  (forall j, j <= i -> j < length s -> isnan (nth j s d) = false) ->
  firstn (S i) (map (fun x => if isnan x then m else x) s) = firstn (S i) s.
Proof.
  revert i. induction s as [|x t IH]; intros i H; [reflexivity|].
  cbn [map firstn]. pose proof (H 0 (Nat.le_0_l i)) as H0. cbn [nth length] in H0.
  rewrite H0 by lia. f_equal.
  destruct i as [|i]; [reflexivity|].
  apply IH. intros j Hj Hlt. apply (H (S j)); simpl; lia.
Qed.

Lemma na_accum_func_nth (op : F -> F -> F) (m : F) (s : list F) (i : nat) (d : F) :
  i < length s ->
  (forall j, j <= i -> isnan (nth j s d) = false) ->
  nth i (na_accum_func op m s) d = reduce op d (firstn (S i) s).
Proof.
  intros Hi Hnum. unfold na_accum_func.
  rewrite (zipWith_nth _ _ _ d d d) by (rewrite ?accumulate_length, ?length_map; exact Hi).
  rewrite (Hnum i) by lia.
  rewrite (accumulate_nth _ _ d d) by (rewrite length_map; exact Hi).
  rewrite (firstn_fill_numbers m s (i := i) d); [reflexivity|].
  intros j Hj _. apply Hnum, Hj.
Qed.

(** With [skipna], a missing entry stays missing and the others are
    accumulated over the series with its missing entries masked. *)
Lemma na_accum_func_nth_skipna (op : F -> F -> F) (m : F) (s : list F) (i : nat) (d : F) :
  i < length s ->
  nth i (na_accum_func op m s) d =
  if isnan (nth i s d) then fnan
  else reduce op d (firstn (S i) (fillna m s)).
Proof.
  intros Hi. unfold na_accum_func.
  rewrite (zipWith_nth _ _ _ d d d) by (rewrite ?accumulate_length, ?length_map; exact Hi).
  rewrite (accumulate_nth _ _ d d) by (rewrite length_map; exact Hi).
  reflexivity.
Qed.

Lemma equity_of_nth_skipna (sr : list F) (i : nat) :
  i < length sr ->
  nth i (equity_of sr) fnan =
  if isnan (fadd fone (nth i sr fnan)) then fnan
  else product_0_to i (fillna fone (map (fadd fone) sr)).
Proof.
  intros Hi. unfold equity_of, cumprod, product_0_to.
  rewrite (na_accum_func_nth_skipna fmul fone (map (fadd fone) sr) (i := i) fnan)
    by (rewrite length_map; exact Hi).
  rewrite (map_nth_lt _ _ fnan) by exact Hi.
  destruct (isnan _); [reflexivity|].
  destruct sr; [simpl in Hi; lia | reflexivity].
Qed.

Lemma equity_of_nth (sr : list F) (i : nat) :
  i < length sr ->
  (forall j, j <= i -> isnan (fadd fone (nth j sr fnan)) = false) ->
  nth i (equity_of sr) fnan = product_0_to i (map (fadd fone) sr).
Proof.
  intros Hi Hnum. unfold equity_of, cumprod, product_0_to.
  rewrite (na_accum_func_nth fmul fone (map (fadd fone) sr) (i := i) fnan).
  - destruct sr; [simpl in Hi; lia | reflexivity].
  - rewrite length_map. exact Hi.
  - intros j Hj. rewrite (map_nth_lt _ _ fnan) by lia. apply Hnum, Hj.
Qed.

End Lag.

(** ** Claims on the generic embedding *)

Section Claims.
Context {FO : FloatOps} {FL : FloatLaws FO}.

(** C1 (amended): if the price series is empty, or the strategy returns
    a list or an ndarray of a length other than N, [run] raises and
    returns no result, and [self] is as before.  The exception is
    pandas' [ValueError] when the lengths differ (raised where the
    signal Series is built, after [compute_returns]) and [IndexError]
    when the prices are empty and the signals too (raised at
    [equity.iloc[-1]], after the series have been computed).  When the
    strategy returns a Series, no length is compared: a Series whose
    labels do not repeat is reindexed to the N bars and [run] returns a
    result unless the prices are empty; a Series whose labels repeat
    raises [ValueError]. *)
Theorem run_raises_on_bad_input (self : Backtester) :
  run_with (fun p => ArrayOutput (strategy_func self p)) self = run self /\
  (prices self = [] \/
   length (strategy_func self (prices self)) <> length (prices self) ->
   exists e,
     run self = (self, Raise e) /\
     lookup_result (snd (run self)) = None /\
     e = (if (length (strategy_func self (prices self)) =? length (prices self))%nat
          then IndexError else ValueError) /\
     (length (strategy_func self (prices self)) <> length (prices self) ->
      e = ValueError /\
      snd (compute_returns self) = Ok (returns_of (prices self)) /\
      Series_with_index (strategy_func self (prices self)) (prices self) =
      Raise ValueError) /\
     (prices self = [] -> strategy_func self [] = [] ->
      e = IndexError /\
      Series_with_index (strategy_func self (prices self)) (prices self) = Ok [] /\
      iloc_last (equity_of (strat_rets_of (prices self) [])) = Raise IndexError)) /\
  (forall (strategy : list F -> signal_output) (items : list (Z * F)),
      strategy (prices self) = SeriesOutput items ->
      let N := length (prices self) in
      (has_duplicates (map fst items) = false ->
       exists signals,
         reindex items (RangeIndex N) = Ok signals /\
         length signals = N /\
         (prices self <> [] -> exists v, run_with strategy self = (self, Ok v)) /\
         (prices self = [] -> run_with strategy self = (self, Raise IndexError))) /\
      (has_duplicates (map fst items) = true ->
       run_with strategy self = (self, Raise ValueError))).
Proof.
  split; [apply run_with_array|]. split.
  - intros H. eexists. split; [apply run_raises, H|].
    split; [rewrite (run_raises self H); reflexivity|].
    split; [reflexivity|]. split.
    + intros Hne. unfold Series_with_index.
      apply Nat.eqb_neq in Hne. rewrite Hne. repeat split.
    + intros Hp Hs. rewrite Hp, Hs. repeat split.
  - intros strategy items Hs N. split.
    + intros Hu.
      destruct (reindex_unique items (RangeIndex N) Hu) as (signals & E & L).
      rewrite RangeIndex_length in L.
      exists signals. split; [exact E|]. split; [exact L|].
      split; intros Hp; rewrite run_with_eq, Hs; cbn [signal_Series];
        fold N; rewrite E; cbv zeta; rewrite (iloc_last_equity _ _ L);
        destruct (prices self); try congruence; try eexists; reflexivity.
    + intros Hd. rewrite run_with_eq, Hs. cbn [signal_Series].
      rewrite (reindex_duplicates _ _ Hd). reflexivity.
Qed.

(** C2: with as many signals as bars, [run] lags the signal by one bar:
    shiftedSignal[0] = 0 and shiftedSignal[i] = signal[i-1] for i >= 1
    (for a signal that is a number), and StrategyReturnSeries[0] = 0
    whatever the signals are. *)
Theorem one_bar_lag (self : Backtester) :
  prices self <> [] ->
  length (strategy_func self (prices self)) = length (prices self) ->
  let signals := strategy_func self (prices self) in
  let shifted := shifted_signals_of signals in
  exists strat_rets equity summary,
    run self = (self, Ok (strat_rets, equity, summary)) /\
    strat_rets = zipWith fmul shifted (returns_of (prices self)) /\
    length shifted = length signals /\
    nth 0 shifted fnan = fzero /\
    (forall i, 1 <= i < length signals ->
               isnan (nth (i - 1) signals fnan) = false ->
               nth i shifted fnan = nth (i - 1) signals fnan) /\
    nth 0 strat_rets fnan = fzero.
Proof.
  intros Hne Hlen signals shifted.
  assert (Hs : signals <> []).
  { intros E. unfold signals in E. rewrite E in Hlen.
    destruct (prices self); [congruence | discriminate]. }
  eexists _, _, _. split; [apply run_ok; assumption|].
  split; [reflexivity|].
  split; [apply shifted_signals_of_length|].
  split; [apply shifted_signals_of_nth_0, Hs|].
  split.
  - intros i [Hi1 Hi2] Hnum. destruct i as [|i]; [lia|].
    replace (S i - 1) with i in * by lia.
    unfold shifted. rewrite shifted_signals_of_nth_S by exact Hi2.
    rewrite Hnum. reflexivity.
  - apply strat_rets_of_nth_0; assumption.
Qed.

(** C4 (amended): for a non-empty price series and as many signals,
    [run] returns StrategyReturn[i] = shiftedSignal[i] * return[i] and
    totalReturn = EquityCurve[N-1] - 1.  EquityCurve[i] is NaN where
    1 + StrategyReturn[i] is NaN, and otherwise the product over
    j = 0..i of the factors 1 + StrategyReturn[j] that are numbers (a
    NaN factor counts as 1); it is the product of all the factors when
    none of them up to i is NaN. *)
Theorem run_equity_curve (self : Backtester) :
  prices self <> [] ->
  length (strategy_func self (prices self)) = length (prices self) ->
  let N := length (prices self) in
  let shifted := shifted_signals_of (strategy_func self (prices self)) in
  exists strat_rets equity summary,
    run self = (self, Ok (strat_rets, equity, summary)) /\
    length strat_rets = N /\ length equity = N /\
    (forall i, i < N ->
               nth i strat_rets fnan =
               fmul (nth i shifted fnan) (nth i (returns_of (prices self)) fnan)) /\
    (forall i, i < N ->
               nth i equity fnan =
               if isnan (fadd fone (nth i strat_rets fnan)) then fnan
               else product_0_to i (fillna fone (map (fadd fone) strat_rets))) /\
    (forall i, i < N ->
               (forall j, j <= i -> isnan (fadd fone (nth j strat_rets fnan)) = false) ->
               nth i equity fnan = product_0_to i (map (fadd fone) strat_rets)) /\
    total_return summary = fsub (nth (N - 1) equity fnan) fone.
Proof.
  intros Hne Hlen N shifted.
  eexists _, _, _. split; [apply run_ok; assumption|].
  assert (Hsr : length (strat_rets_of (prices self) (strategy_func self (prices self))) = N)
    by (apply strat_rets_of_length, Hlen).
  split; [exact Hsr|].
  split; [rewrite equity_of_length; exact Hsr|].
  split; [intros i Hi; apply strat_rets_of_nth; assumption|].
  split; [intros i Hi; apply equity_of_nth_skipna; rewrite Hsr; exact Hi|].
  split; [|reflexivity].
  intros i Hi Hnum. apply equity_of_nth; [rewrite Hsr; exact Hi | exact Hnum].
Qed.

(** C8: [run] is a function of the instance alone: a second call on the
    instance the first call left behind returns the same output, and
    the instance is the same after each call. *)
Theorem run_twice_identical (self : Backtester) :
  snd (run (fst (run self))) = snd (run self) /\
  fst (run self) = self /\
  fst (run (fst (run self))) = self.
Proof.
  rewrite !run_self. repeat split; reflexivity.
Qed.

(** C9: [compute_returns] and [run] leave [prices] and [strategy_func]
    as the constructor set them, and the instance has no other
    attribute in which a derived series could be kept. *)
Theorem methods_keep_attributes (p : list F) (f : list F -> list F) :
  let self := __init__ p f in
  prices self = p /\ strategy_func self = f /\
  fst (compute_returns self) = self /\
  fst (run self) = self /\
  (forall other : Backtester,
      other = __init__ (prices other) (strategy_func other)).
Proof.
  intros self. rewrite run_self.
  repeat split; try reflexivity.
  intros [p' f']. reflexivity.
Qed.


End Claims.

(** ** Exact arithmetic: facts about the instance [XR] *)

Section ExactFacts.
Local Existing Instance XR.
Local Existing Instance XR_laws.
Local Open Scope R_scope.

Lemma xdiv_fin (a b : R) : b <> 0 -> xdiv (XFin a) (XFin b) = XFin (a / b).
Proof.
  intros Hb. unfold xdiv. destruct (Req_dec_T b 0); [contradiction | reflexivity].
Qed.

Lemma np_maximum_fin (a b : R) : np_maximum (XFin a) (XFin b) = XFin (Rmax a b).
Proof.
  unfold np_maximum, Rmax. cbn.
  destruct (Rle_dec b a), (Rle_dec a b); try reflexivity; f_equal; lra.
Qed.

Lemma np_minimum_fin (a b : R) : np_minimum (XFin a) (XFin b) = XFin (Rmin a b).
Proof.
  unfold np_minimum, Rmin. cbn.
  destruct (Rle_dec a b); reflexivity.
Qed.

Lemma fold_np_maximum_fin (t : list R) (x : R) :
  fold_left np_maximum (map XFin t) (XFin x) = XFin (fold_left Rmax t x).
Proof.
  revert x. induction t as [|y t IH]; intros x; [reflexivity|].
  cbn [map fold_left]. rewrite np_maximum_fin. apply IH.
Qed.

Lemma fold_np_minimum_fin (t : list R) (x : R) :
  fold_left np_minimum (map XFin t) (XFin x) = XFin (fold_left Rmin t x).
Proof.
  revert x. induction t as [|y t IH]; intros x; [reflexivity|].
  cbn [map fold_left]. rewrite np_minimum_fin. apply IH.
Qed.

Lemma nth_map_XFin (e : list R) (i : nat) :
  (i < length e)%nat -> nth i (map XFin e) XNan = XFin (nth i e 0).
Proof. intros Hi. apply (map_nth_lt XFin e 0 XNan Hi). Qed.

Lemma all_fin_numbers (e : list R) (j : nat) :
  (j < length e)%nat -> isnan (nth j (map XFin e) XNan) = false.
Proof. intros Hj. rewrite nth_map_XFin by exact Hj. reflexivity. Qed.

Lemma notna_count_fin (e : list R) : notna_count (map XFin e) = length e.
Proof.
  unfold notna_count. induction e as [|x t IH]; [reflexivity|].
  cbn. f_equal. exact IH.
Qed.

Lemma fill_fin (m : xreal) (e : list R) :
  map (fun x : xreal => if isnan x then m else x) (map XFin e) = map XFin e.
Proof. rewrite map_map. reflexivity. Qed.

(** The rolling maximum of a curve of numbers. *)
Lemma cummax_fin_nth (e : list R) (i : nat) :
  (i < length e)%nat ->
  nth i (cummax (map XFin e)) XNan = XFin (prefix_max e i).
Proof.
  intros Hi. unfold cummax.
  rewrite (na_accum_func_nth (FO:=XR) np_maximum ninf (map XFin e) (i := i) XNan).
  - rewrite firstn_map. unfold prefix_max.
    destruct (firstn (S i) e) as [|x t] eqn:E.
    + destruct e; [simpl in Hi; lia | discriminate].
    + cbn [map reduce]. apply fold_np_maximum_fin.
  - rewrite length_map. exact Hi.
  - intros j Hj. apply all_fin_numbers. lia.
Qed.

(** The minimum of a non-empty series of numbers. *)
Lemma series_min_fin (x : R) (t : list R) :
  series_min (map XFin (x :: t)) = XFin (fold_left Rmin t x).
Proof.
  unfold series_min. rewrite notna_count_fin. cbn [length Nat.eqb].
  rewrite fill_fin. cbn [map reduce]. apply fold_np_minimum_fin.
Qed.

(** *** Order facts on the reals *)

Lemma fold_Rmax_ge_init (t : list R) (x : R) : x <= fold_left Rmax t x.
Proof.
  revert x. induction t as [|y t IH]; intros x; cbn [fold_left]; [lra|].
  pose proof (IH (Rmax x y)). pose proof (Rmax_l x y). lra.
Qed.

Lemma fold_Rmax_ge_In (t : list R) (x y : R) : In y t -> y <= fold_left Rmax t x.
Proof.
  revert x. induction t as [|z t IH]; intros x H; [contradiction|].
  cbn [fold_left]. destruct H as [->|H]; [|apply IH, H].
  pose proof (fold_Rmax_ge_init t (Rmax x y)). pose proof (Rmax_r x y). lra.
Qed.

Lemma fold_Rmin_le_init (t : list R) (x : R) : fold_left Rmin t x <= x.
Proof.
  revert x. induction t as [|y t IH]; intros x; cbn [fold_left]; [lra|].
  pose proof (IH (Rmin x y)). pose proof (Rmin_l x y). lra.
Qed.

Lemma fold_Rmin_le_In (t : list R) (x y : R) : In y t -> fold_left Rmin t x <= y.
Proof.
  revert x. induction t as [|z t IH]; intros x H; [contradiction|].
  cbn [fold_left]. destruct H as [->|H]; [|apply IH, H].
  pose proof (fold_Rmin_le_init t (Rmin x y)). pose proof (Rmin_r x y). lra.
Qed.

Lemma fold_Rmin_const (t : list R) (c : R) :
  (forall y, In y t -> y = c) -> fold_left Rmin t c = c.
Proof.
  induction t as [|z t IH]; intros H; [reflexivity|].
  cbn [fold_left]. rewrite (H z) by (left; reflexivity).
  rewrite Rmin_left by lra. apply IH. intros y Hy. apply H. right. exact Hy.
Qed.

Lemma fold_Rmax_snoc (t : list R) (x y : R) :
  fold_left Rmax (t ++ [y]) x = Rmax (fold_left Rmax t x) y.
Proof. rewrite fold_left_app. reflexivity. Qed.

End ExactFacts.

(** ** What a successful [run] tells about its input and output *)

Section RunInversion.
Context {FO : FloatOps} {FL : FloatLaws FO}.

Lemma run_inv (self : Backtester) (strat_rets equity : list F) (summary : Summary) :
  snd (run self) = Ok (strat_rets, equity, summary) ->
  prices self <> [] /\
  length (strategy_func self (prices self)) = length (prices self) /\
  strat_rets = strat_rets_of (prices self) (strategy_func self (prices self)) /\
  equity = equity_of strat_rets /\
  summary = summary_of strat_rets equity (nth (length (prices self) - 1) equity fnan).
Proof.
  intros Hrun.
  assert (Hlen : length (strategy_func self (prices self)) = length (prices self)).
  { rewrite run_eq in Hrun. cbn [snd] in Hrun. unfold Series_with_index in Hrun.
    destruct (Nat.eqb_spec (length (strategy_func self (prices self)))
                           (length (prices self))); [assumption | discriminate]. }
  assert (Hne : prices self <> []).
  { intros E.
    rewrite (run_raises self (or_introl E)) in Hrun. discriminate. }
  rewrite (run_ok self Hne Hlen) in Hrun. cbn [snd] in Hrun.
  injection Hrun as <- <- <-. repeat split; assumption.
Qed.

(** The equity curve starts at 1: there is no position on the first bar. *)
Lemma equity_of_nth_0 (p s : list F) :
  length s = length p -> p <> [] ->
  nth 0 (equity_of (strat_rets_of p s)) fnan = fone.
Proof.
  intros Hl Hne.
  pose proof (@strat_rets_of_nth_0 _ _ p s fnan Hl Hne) as H0.
  pose proof (strat_rets_of_length p s Hl) as Hn.
  assert (0 < length p) by (destruct p; [congruence | simpl; lia]).
  rewrite equity_of_nth.
  - unfold product_0_to.
    destruct (strat_rets_of p s) as [|x t]; [simpl in Hn; lia|].
    cbn in H0. subst x. cbn. apply fadd_1_0.
  - lia.
  - intros j Hj. replace j with 0 by lia. rewrite H0, fadd_1_0. apply isnan_fone.
Qed.

End RunInversion.

(** ** Exact arithmetic: returns and drawdown *)

Section ExactClaims.
Local Existing Instance XR.
Local Existing Instance XR_laws.
Local Open Scope R_scope.

Lemma firstn_S_snoc {A} (l : list A) (n : nat) (d : A) :
  (n < length l)%nat -> firstn (S n) l = firstn n l ++ [nth n l d].
Proof.
  revert n. induction l as [|x t IH]; intros n Hn; simpl in Hn; [lia|].
  destruct n as [|n]; [reflexivity|].
  cbn [firstn nth app]. f_equal. apply IH. lia.
Qed.

Lemma prefix_max_0 (e : list R) : e <> [] -> prefix_max e 0 = nth 0 e 0.
Proof. destruct e; [congruence | reflexivity]. Qed.

Lemma prefix_max_S (e : list R) (i : nat) :
  (S i < length e)%nat ->
  prefix_max e (S i) = Rmax (prefix_max e i) (nth (S i) e 0).
Proof.
  intros Hi. unfold prefix_max.
  rewrite (firstn_S_snoc e 0 Hi).
  destruct e as [|x t]; [simpl in Hi; lia|].
  cbn [firstn app]. apply fold_Rmax_snoc.
Qed.

Lemma prefix_max_ge (e : list R) (i j : nat) :
  (j <= i < length e)%nat -> nth j e 0 <= prefix_max e i.
Proof.
  induction i as [|i IH]; intros [Hj Hi].
  - replace j with 0%nat by lia. rewrite prefix_max_0; [lra|].
    destruct e; [simpl in Hi; lia | discriminate].
  - rewrite prefix_max_S by exact Hi.
    destruct (Nat.eq_dec j (S i)) as [->|Hne].
    + apply Rmax_r.
    + pose proof (Rmax_l (prefix_max e i) (nth (S i) e 0)).
      assert (nth j e 0 <= prefix_max e i) by (apply IH; lia). lra.
Qed.

Lemma prefix_max_non_decreasing (e : list R) (i : nat) :
  non_decreasing e -> (i < length e)%nat -> prefix_max e i = nth i e 0.
Proof.
  intros Hmono. induction i as [|i IH]; intros Hi.
  - apply prefix_max_0. destruct e; [simpl in Hi; lia | discriminate].
  - rewrite prefix_max_S by exact Hi. rewrite IH by lia.
    apply Rmax_right. apply Hmono. exact Hi.
Qed.

(** The drawdown series of a curve of numbers that starts above 0. *)
Lemma drawdowns_of_fin (e : list R) :
  0 < nth 0 e 0 ->
  drawdowns_of (map XFin e) = map XFin (map (drawdown_at e) (seq 0 (length e))).
Proof.
  intros Hpos. apply (nth_ext _ _ XNan XNan).
  - unfold drawdowns_of, cummax.
    rewrite zipWith_length, (na_accum_func_length (FO:=XR)), !length_map, length_seq.
    apply Nat.min_id.
  - intros i Hi.
    assert (Hi' : (i < length e)%nat).
    { unfold drawdowns_of, cummax in Hi.
      rewrite zipWith_length, (na_accum_func_length (FO:=XR)), !length_map in Hi. lia. }
    unfold drawdowns_of.
    rewrite (zipWith_nth _ _ _ XNan XNan XNan)
      by (unfold cummax; rewrite ?(na_accum_func_length (FO:=XR)), length_map; exact Hi').
    rewrite nth_map_XFin, cummax_fin_nth by exact Hi'.
    rewrite (map_nth_lt XFin _ 0 XNan) by (rewrite length_map, length_seq; exact Hi').
    rewrite (map_nth_lt (drawdown_at e) _ 0%nat 0) by (rewrite length_seq; exact Hi').
    rewrite seq_nth by exact Hi'. cbn [Nat.add].
    assert (Hm : prefix_max e i <> 0).
    { pose proof (prefix_max_ge e (i := i) (j := 0%nat)). assert (nth 0 e 0 <= prefix_max e i) by (apply H; lia). lra. }
    cbn [fdiv fsub XR]. rewrite xdiv_fin by exact Hm. reflexivity.
Qed.

Lemma drawdown_of_fin (e : list R) :
  0 < nth 0 e 0 -> drawdown_of (map XFin e) = XFin (min_drawdown e).
Proof.
  intros Hpos. unfold drawdown_of, min_drawdown.
  rewrite drawdowns_of_fin by exact Hpos.
  destruct e as [|x t]; [cbn in Hpos; lra|].
  cbn [length seq map]. apply series_min_fin.
Qed.

Lemma drawdown_at_0 (e : list R) : 0 < nth 0 e 0 -> drawdown_at e 0 = 0.
Proof.
  intros Hpos. unfold drawdown_at. rewrite prefix_max_0.
  - field. lra.
  - destruct e; [cbn in Hpos; lra | discriminate].
Qed.

Lemma min_drawdown_le_at (e : list R) (i : nat) :
  (i < length e)%nat -> min_drawdown e <= drawdown_at e i.
Proof.
  intros Hi. unfold min_drawdown.
  destruct e as [|x t]; [simpl in Hi; lia|].
  cbn [length seq map].
  destruct i as [|i]; [apply fold_Rmin_le_init|].
  apply fold_Rmin_le_In. apply in_map, in_seq. simpl in Hi. lia.
Qed.

Lemma min_drawdown_le_0 (e : list R) : 0 < nth 0 e 0 -> min_drawdown e <= 0.
Proof.
  intros Hpos. rewrite <- (drawdown_at_0 e Hpos).
  apply min_drawdown_le_at. destruct e; [cbn in Hpos; lra | simpl; lia].
Qed.

Lemma min_drawdown_non_decreasing (e : list R) :
  0 < nth 0 e 0 -> non_decreasing e -> min_drawdown e = 0.
Proof.
  intros Hpos Hmono.
  assert (Hall : forall i, (i < length e)%nat -> drawdown_at e i = 0).
  { intros i Hi. unfold drawdown_at.
    pose proof (prefix_max_ge e (i := i) (j := 0%nat)) as Hge.
    rewrite (prefix_max_non_decreasing Hmono Hi) in *.
    field. assert (nth 0 e 0 <= nth i e 0) by (apply Hge; lia). lra. }
  unfold min_drawdown.
  destruct e as [|x t]; [reflexivity|].
  cbn [length seq map]. rewrite (Hall 0%nat) by (simpl; lia).
  apply fold_Rmin_const. intros y Hy.
  apply in_map_iff in Hy. destruct Hy as [i [<- Hi]].
  apply in_seq in Hi. apply Hall. simpl. lia.
Qed.

Lemma min_drawdown_dip (e : list R) :
  0 < nth 0 e 0 -> has_strict_dip e -> min_drawdown e < 0.
Proof.
  intros Hpos [j [i [[Hj Hi] Hlt]]].
  pose proof (min_drawdown_le_at e Hi) as Hle.
  assert (Hat : drawdown_at e i < 0); [|lra].
  unfold drawdown_at.
  assert (Hm : nth j e 0 <= prefix_max e i) by (apply prefix_max_ge; lia).
  assert (H0 : nth 0 e 0 <= prefix_max e i) by (apply prefix_max_ge; lia).
  assert (Hp : 0 < prefix_max e i) by lra.
  assert (nth i e 0 / prefix_max e i < 1); [|lra].
  apply (Rmult_lt_reg_r (prefix_max e i)); [exact Hp|].
  unfold Rdiv. rewrite Rmult_assoc, Rinv_l by lra. lra.
Qed.

(** C6: the max drawdown [run] reports for an equity curve of numbers is
    the minimum over all i of EquityCurve[i] / max(EquityCurve[0..i]) - 1;
    it is at most 0, it is 0 when the curve never falls, and it is below
    0 when some bar lies strictly below an earlier one. *)
Theorem max_drawdown_spec (self : Backtester) (strat_rets : list xreal)
        (e : list R) (summary : Summary) :
  snd (run self) = Ok (strat_rets, map XFin e, summary) ->
  max_drawdown summary = XFin (min_drawdown e) /\
  min_drawdown e <= 0 /\
  (non_decreasing e -> max_drawdown summary = XFin 0) /\
  (has_strict_dip e -> min_drawdown e < 0).
Proof.
  intros Hrun. apply (run_inv (FO:=XR)) in Hrun.
  destruct Hrun as (Hne & Hlen & Hsr & Heq & Hsum).
  assert (Hpos : 0 < nth 0 e 0).
  { pose proof (equity_of_nth_0 (FO:=XR) (strategy_func self (prices self)) Hlen Hne) as H1.
    rewrite <- Hsr, <- Heq in H1.
    destruct e as [|x t].
    - cbn in H1. discriminate.
    - cbn in H1. injection H1 as ->. cbn. lra. }
  assert (Hmd : max_drawdown summary = XFin (min_drawdown e)).
  { rewrite Hsum. cbn [max_drawdown summary_of]. apply drawdown_of_fin, Hpos. }
  split; [exact Hmd|].
  split; [apply min_drawdown_le_0, Hpos|].
  split.
  - intros Hmono. rewrite Hmd. f_equal.
    apply min_drawdown_non_decreasing; assumption.
  - apply min_drawdown_dip, Hpos.
Qed.

End ExactClaims.

(** ** Returns in exact arithmetic *)

Section ExactReturns.
Local Existing Instance XR.
Local Existing Instance XR_laws.
Local Open Scope R_scope.

(** C5 (amended): [compute_returns] gives a series as long as the
    prices, with element 0 equal to 0 and element i, for i >= 1, equal
    to price[i] / price[i-1] - 1, or to 0 where that is NaN.  In exact
    arithmetic and for prices other than 0 this is
    (price[i] - price[i-1]) / price[i-1]; on [100, 100, 100] the
    binary64 result is exactly [0, 0, 0]. *)
Theorem compute_returns_spec :
  (forall (FO : FloatOps) (FL : FloatLaws FO) (self : @Backtester FO),
      exists rets,
        compute_returns self = (self, Ok rets) /\
        length rets = length (prices self) /\
        (prices self <> [] -> nth 0 rets fnan = fzero) /\
        (forall i, (1 <= i < length (prices self))%nat ->
                   nth i rets fnan =
                   let r := fsub (fdiv (nth i (prices self) fnan)
                                       (nth (i - 1) (prices self) fnan)) fone in
                   if isnan r then fzero else r)) /\
  (forall (ps : list R) (f : list xreal -> list xreal),
      (forall p, In p ps -> p <> 0) ->
      let self := __init__ (map XFin ps) f in
      exists rets,
        compute_returns self = (self, Ok rets) /\
        length rets = length ps /\
        (ps <> [] -> nth 0 rets XNan = XFin 0) /\
        (forall i, (1 <= i < length ps)%nat ->
                   nth i rets XNan =
                   XFin ((nth i ps 0 - nth (i - 1) ps 0) / nth (i - 1) ps 0))) /\
  (forall g : list float -> list float,
      snd (compute_returns (__init__ (FO := B64) [100%float; 100%float; 100%float] g)) =
      Ok [0%float; 0%float; 0%float]).
Proof.
  split; [|split; [|intros g; reflexivity]].
  - intros FO FL self. exists (returns_of (prices self)).
    split; [reflexivity|].
    split; [apply returns_of_length|].
    split; [apply returns_of_nth_0|].
    intros i [Hi1 Hi2]. destruct i as [|i]; [lia|].
    replace (S i - 1)%nat with i by lia.
    apply returns_of_nth_S, Hi2.
  - intros ps f Hnz self. exists (returns_of (FO:=XR) (map XFin ps)).
    split; [reflexivity|].
    split; [rewrite (returns_of_length (FO:=XR)); apply length_map|].
    split.
    { intros Hne. apply (returns_of_nth_0 (FO:=XR)).
      destruct ps; [congruence | discriminate]. }
    intros i [Hi1 Hi2]. destruct i as [|i]; [lia|].
    replace (S i - 1)%nat with i by lia.
    rewrite (returns_of_nth_S (FO:=XR)) by (rewrite length_map; exact Hi2).
    rewrite !nth_map_XFin by lia.
    assert (Hp : nth i ps 0 <> 0) by (apply Hnz, nth_In; lia).
    cbv zeta. cbn [fdiv fsub isnan XR]. rewrite xdiv_fin by exact Hp.
    cbn. f_equal. field. exact Hp.
Qed.

End ExactReturns.

(** ** Runs on binary64 *)

Section Binary64Runs.
Local Existing Instance B64.
Local Existing Instance B64_laws.
Local Open Scope float_scope.

(** C7: with a single bar and the all-zero signal, the strategy return
    is 0, the equity is 1.0, totalReturn and maxDrawdown are 0, and the
    Sharpe ratio is NaN: the sample standard deviation of one value is
    NaN, which the guard [std == 0] of [_sharpe] does not catch. *)
Theorem flat_signal_one_bar_sharpe_is_nan :
  flat_strategy one_bar = [0] /\
  run (__init__ one_bar flat_strategy) =
  (__init__ one_bar flat_strategy,
   Ok ([0], [1], {| total_return := 0; sharpe := nan; max_drawdown := 0 |})) /\
  series_std (excess_returns [0] fzero) = nan /\
  feqb (series_std (excess_returns [0] fzero)) fzero = false.
Proof. repeat split. Qed.

(** The same input with three bars gives what the claim says. *)
Example flat_signal_three_bars :
  snd (run (__init__ three_bars flat_strategy)) =
  Ok ([0; 0; -0], [1; 1; 1], {| total_return := 0; sharpe := 0; max_drawdown := 0 |}).
Proof. reflexivity. Qed.

(** Wrong inputs raise pandas' own exceptions, none of which is called
    InvalidInputError. *)
Lemma run_raises_IndexError_or_ValueError :
  snd (run (__init__ no_bars flat_strategy)) = Raise IndexError /\
  snd (run (__init__ three_bars short_output_strategy)) = Raise ValueError /\
  (forall e : exn, exn_name e <> "InvalidInputError"%string).
Proof.
  repeat split. intros [|]; discriminate.
Qed.

(** Eight returns of one tenth: numpy's pairwise sum is 8/10, the mean
    is 1/10 exactly, the standard deviation is 0 and the Sharpe ratio
    0.0.  Seven of them are summed one after the other: the mean falls
    short of 1/10, the standard deviation is not 0, and the Sharpe
    ratio is above 10^16. *)
Example sharpe_of_eight_equal_returns :
  np_sum eight_equal_returns = 8 / 10 /\
  series_mean eight_equal_returns = 1 / 10 /\
  series_std eight_equal_returns = 0 /\
  sharpe_of eight_equal_returns fzero = 0.
Proof. repeat split. Qed.

Example sharpe_of_seven_equal_returns :
  PrimFloat.ltb (series_mean (repeat (1 / 10) 7)) (1 / 10) = true /\
  PrimFloat.ltb 0 (series_std (repeat (1 / 10) 7)) = true /\
  PrimFloat.ltb 10000000000000000 (sharpe_of (repeat (1 / 10) 7) fzero) = true.
Proof. repeat split. Qed.

(** A Series of one signal labelled 0 is reindexed to the three bars:
    the bars without a signal are missing, and [run] returns. *)
Example short_series_is_reindexed :
  signal_Series (short_series_strategy three_bars) three_bars = Ok [1; nan; nan] /\
  exists strat_rets equity summary,
    snd (run_with short_series_strategy (__init__ three_bars flat_strategy)) =
    Ok (strat_rets, equity, summary) /\
    shifted_signals_of [1; nan; nan] = [0; 1; 0] /\
    length equity = 3%nat.
Proof. split; [reflexivity|]. eexists _, _, _. repeat split. Qed.

(** How missing values travel through the pandas calls. *)
Example shift_fillna_on_nan_signal :
  shifted_signals_of [nan; 1; 1] = [0; 0; 1].
Proof. reflexivity. Qed.

Example cumprod_skips_nan : cumprod [2; nan; 3] = [2; nan; 6].
Proof. reflexivity. Qed.

Example cummax_skips_nan : cummax [2; nan; 1; 3] = [2; nan; 2; 3].
Proof. reflexivity. Qed.

Example std_of_one_value : series_std [0] = nan.
Proof. reflexivity. Qed.

(** Long on 100, 110, 99: one bar up by a tenth, one bar down by a tenth. *)
Example long_three_bars_drawdown :
  exists strat_rets equity summary,
    snd (run (__init__ three_bars long_strategy)) = Ok (strat_rets, equity, summary) /\
    nth 0 strat_rets nan = 0 /\
    nth 0 equity nan = 1 /\
    PrimFloat.ltb (max_drawdown summary) 0 = true /\
    PrimFloat.ltb (total_return summary) 0 = true.
Proof. eexists _, _, _. repeat split. Qed.

(** On binary64 the return of 100 -> 110 is 110 / 100 - 1, which lies
    above (110 - 100) / 100; and two prices of 0 give the return 0,
    where (0 - 0) / 0 is NaN. *)
Lemma compute_returns_is_not_the_quotient :
  snd (compute_returns (__init__ two_bars flat_strategy)) = Ok [0; 110 / 100 - 1] /\
  PrimFloat.eqb (110 / 100 - 1) ((110 - 100) / 100) = false /\
  PrimFloat.ltb ((110 - 100) / 100) (110 / 100 - 1) = true /\
  snd (compute_returns (__init__ two_zero_bars flat_strategy)) = Ok [0; 0] /\
  PrimFloat.is_nan ((0 - 0) / 0) = true.
Proof. repeat split. Qed.

Lemma run_raises_on_bad_input_witness :
  (exists e,
      run (__init__ no_bars flat_strategy) = (__init__ no_bars flat_strategy, Raise e) /\
      e = IndexError) /\
  (exists e,
      run (__init__ three_bars short_output_strategy) =
      (__init__ three_bars short_output_strategy, Raise e) /\
      e = ValueError) /\
  (exists v,
      run_with short_series_strategy (__init__ three_bars flat_strategy) =
      (__init__ three_bars flat_strategy, Ok v)) /\
  run_with repeated_label_strategy (__init__ three_bars flat_strategy) =
  (__init__ three_bars flat_strategy, Raise ValueError).
Proof.
  split.
  { destruct (run_raises_on_bad_input (__init__ no_bars flat_strategy))
      as (_ & H & _).
    destruct (H (or_introl eq_refl)) as (e & Hrun & _ & He & _).
    exists e. split; [exact Hrun | exact He]. }
  split.
  { destruct (run_raises_on_bad_input (__init__ three_bars short_output_strategy))
      as (_ & H & _).
    destruct H as (e & Hrun & _ & He & _); [right; vm_compute; lia|].
    exists e. split; [exact Hrun | exact He]. }
  destruct (run_raises_on_bad_input (__init__ three_bars flat_strategy))
    as (_ & _ & H).
  split.
  - destruct (H short_series_strategy _ eq_refl) as (Hu & _).
    destruct (Hu eq_refl) as (signals & _ & _ & Hok & _).
    apply Hok. discriminate.
  - destruct (H repeated_label_strategy _ eq_refl) as (_ & Hd).
    apply Hd. reflexivity.
Defined.

Lemma one_bar_lag_witness :
  exists strat_rets equity summary,
    run (__init__ three_bars long_strategy) =
    (__init__ three_bars long_strategy, Ok (strat_rets, equity, summary)) /\
    shifted_signals_of (long_strategy three_bars) = [0; 1; 1] /\
    nth 0 strat_rets nan = 0.
Proof.
  destruct (one_bar_lag (FL := B64_laws) (__init__ three_bars long_strategy))
    as (sr & eq & s & Hrun & _ & _ & _ & _ & H0).
  - discriminate.
  - reflexivity.
  - exists sr, eq, s. split; [exact Hrun|]. split; [reflexivity | exact H0].
Defined.

Lemma run_equity_curve_witness :
  exists strat_rets equity summary,
    run (__init__ three_bars long_strategy) =
    (__init__ three_bars long_strategy, Ok (strat_rets, equity, summary)) /\
    nth 2 equity nan = product_0_to 2 (fillna fone (map (fadd fone) strat_rets)) /\
    nth 2 equity nan = product_0_to 2 (map (fadd fone) strat_rets) /\
    total_return summary = fsub (nth 2 equity nan) fone.
Proof.
  destruct (run_equity_curve (__init__ three_bars long_strategy))
    as (sr & eq & s & Hrun & _ & _ & _ & Hskip & Hprod & Htot).
  - discriminate.
  - reflexivity.
  - pose proof Hrun as Hrun'. rewrite run_ok in Hrun'; [|discriminate | reflexivity].
    injection Hrun' as Esr _ _.
    exists sr, eq, s. split; [exact Hrun|]. split; [|split; [|exact Htot]].
    + etransitivity; [apply (Hskip 2%nat); simpl; lia|].
      rewrite <- Esr. reflexivity.
    + apply Hprod; [simpl; lia|].
      intros j Hj. rewrite <- Esr.
      destruct j as [|[|[|j]]]; [reflexivity | reflexivity | reflexivity | lia].
Defined.

(** With a price of 0 the return of the next bar is infinite, the
    strategy return of a flat position 0 * inf is NaN, and [cumprod]
    leaves that factor out: the equity of the last bar is 1, and the
    product of the four factors is NaN. *)
Lemma equity_leaves_out_a_missing_factor :
  length (fourth_bar_strategy zero_price_bars) = length zero_price_bars /\
  exists strat_rets equity summary,
    run (__init__ zero_price_bars fourth_bar_strategy) =
    (__init__ zero_price_bars fourth_bar_strategy, Ok (strat_rets, equity, summary)) /\
    equity = [1; 1; nan; 1] /\
    nth 3 equity nan = 1 /\
    PrimFloat.is_nan (product_0_to 3 (map (fadd fone) strat_rets)) = true /\
    PrimFloat.eqb (nth 3 equity nan) (product_0_to 3 (map (fadd fone) strat_rets)) = false.
Proof.
  split; [reflexivity|]. eexists _, _, _.
  split; [vm_compute; reflexivity|]. repeat split; vm_compute; reflexivity.
Qed.


End Binary64Runs.

(** ** Runs in exact arithmetic *)

Section ExactRuns.
Local Existing Instance XR.
Local Existing Instance XR_laws.
Local Open Scope R_scope.

Lemma compute_returns_spec_witness :
  (exists rets,
      compute_returns (__init__ (map XFin [100; 110; 99]) (flat_strategy (FO:=XR))) =
      (__init__ (map XFin [100; 110; 99]) (flat_strategy (FO:=XR)), Ok rets) /\
      nth 0 rets XNan = XFin 0 /\
      nth 1 rets XNan = XFin ((110 - 100) / 100) /\
      nth 2 rets XNan = XFin ((99 - 110) / 110)) /\
  (exists rets,
      compute_returns (__init__ two_bars (flat_strategy (FO:=B64))) =
      (__init__ two_bars (flat_strategy (FO:=B64)), Ok rets) /\
      nth 0 rets PrimFloat.nan = 0%float /\
      nth 1 rets PrimFloat.nan = (110 / 100 - 1)%float).
Proof.
  destruct compute_returns_spec as (Hgen & Hex & _). split.
  - destruct (Hex [100; 110; 99] (flat_strategy (FO:=XR)))
      as (rets & Hc & _ & H0 & Hi).
    + intros p [<-|[<-|[<-|[]]]]; lra.
    + exists rets. split; [exact Hc|]. split; [apply H0; discriminate|].
      split; [apply (Hi 1%nat) | apply (Hi 2%nat)]; simpl; lia.
  - destruct (Hgen B64 B64_laws (__init__ two_bars (flat_strategy (FO:=B64))))
      as (rets & Hc & _ & H0 & Hi).
    exists rets. split; [exact Hc|]. split; [apply H0; discriminate|].
    etransitivity; [apply (Hi 1%nat); simpl; lia | reflexivity].
Defined.

(** The equity curve of the long strategy on 100, 110, 99. *)
Lemma long_three_bars_equity :
  equity_of (strat_rets_of three_bars_exact (long_strategy (FO:=XR) three_bars_exact)) =
  map XFin [1; 11 / 10; 99 / 100].
Proof.
  unfold equity_of, strat_rets_of, shifted_signals_of, returns_of, pct_change,
    cumprod, na_accum_func, three_bars_exact, long_strategy, fillna, shift1.
  cbn [map removelast zipWith fdiv fsub fmul fadd isnan XR fone fzero of_Z fnan
       xsub xmul xadd xisnan accumulate accumulate_from].
  unfold xdiv.
  destruct (Req_dec_T 100 0) as [E|_]; [lra|].
  destruct (Req_dec_T 110 0) as [E|_]; [lra|].
  cbn [map removelast zipWith fdiv fsub fmul fadd isnan XR fone fzero of_Z fnan
       xsub xmul xadd xisnan accumulate accumulate_from].
  repeat (f_equal; try field).
Qed.

Lemma max_drawdown_spec_witness :
  exists strat_rets summary,
    snd (run (__init__ three_bars_exact (long_strategy (FO:=XR)))) =
    Ok (strat_rets, map XFin [1; 11 / 10; 99 / 100], summary) /\
    max_drawdown summary = XFin (min_drawdown [1; 11 / 10; 99 / 100]) /\
    min_drawdown [1; 11 / 10; 99 / 100] < 0.
Proof.
  pose proof (run_ok (__init__ three_bars_exact (long_strategy (FO:=XR)))) as Hrun.
  cbv zeta in Hrun.
  assert (Hr : snd (run (__init__ three_bars_exact (long_strategy (FO:=XR)))) =
               Ok (strat_rets_of three_bars_exact (long_strategy (FO:=XR) three_bars_exact),
                   map XFin [1; 11 / 10; 99 / 100],
                   summary_of (strat_rets_of three_bars_exact (long_strategy (FO:=XR) three_bars_exact))
                              (map XFin [1; 11 / 10; 99 / 100])
                              (nth 2 (map XFin [1; 11 / 10; 99 / 100]) XNan))).
  { rewrite Hrun; [|discriminate | reflexivity].
    cbn [snd prices strategy_func __init__]. rewrite long_three_bars_equity. reflexivity. }
  destruct (max_drawdown_spec _ _ Hr) as (Hmd & _ & _ & Hdip).
  eexists _, _. split; [exact Hr|]. split; [exact Hmd|].
  apply Hdip. exists 1%nat, 2%nat. split; [simpl; lia|]. cbn. lra.
Defined.

End ExactRuns.

(** ** numpy's pairwise summation *)

Section SumFacts.
Context {FO : FloatOps}.

(** The length of the array is enough fuel: any two such amounts give
    the same sum. *)
Lemma pairwise_sum_fuel (f1 f2 : nat) (a : list F) :
  length a <= f1 -> length a <= f2 -> pairwise_sum f1 a = pairwise_sum f2 a.
Proof.
  revert f2 a. induction f1 as [|f1 IH]; intros f2 a H1 H2.
  - destruct a; [|simpl in H1; lia]. destruct f2; reflexivity.
  - destruct f2 as [|f2]; [destruct a; [reflexivity | simpl in H2; lia]|].
    cbn [pairwise_sum].
    destruct (Nat.ltb_spec (length a) 8) as [|H8]; [reflexivity|].
    destruct (Nat.leb_spec (length a) 128) as [|H128]; [reflexivity|].
    pose proof (Nat.div_mod_eq (length a) 2) as E2.
    pose proof (Nat.mod_upper_bound (length a) 2 ltac:(lia)) as B2.
    pose proof (Nat.div_mod_eq (length a / 2) 8) as E8.
    pose proof (Nat.mod_upper_bound (length a / 2) 8 ltac:(lia)) as B8.
    f_equal; apply IH; rewrite ?length_firstn, ?length_skipn; lia.
Qed.

End SumFacts.

Section ExactSums.
Local Existing Instance XR.
Local Open Scope R_scope.

Lemma Rlist_sum_app (l m : list R) : Rlist_sum (l ++ m) = Rlist_sum l + Rlist_sum m.
Proof.
  induction l as [|x t IH]; cbn [app Rlist_sum fold_right].
  - fold (Rlist_sum m). ring.
  - fold (Rlist_sum (t ++ m)). fold (Rlist_sum t). rewrite IH. ring.
Qed.

Lemma Rlist_sum_firstn_skipn (n : nat) (l : list R) :
  Rlist_sum (firstn n l) + Rlist_sum (skipn n l) = Rlist_sum l.
Proof. rewrite <- Rlist_sum_app, firstn_skipn. reflexivity. Qed.

Lemma Rlist_sum_repeat (c : R) (n : nat) : Rlist_sum (repeat c n) = INR n * c.
Proof.
  induction n as [|n IH].
  - cbn. ring.
  - cbn [repeat Rlist_sum fold_right]. fold (Rlist_sum (repeat c n)).
    rewrite IH, S_INR. ring.
Qed.

Lemma zipWith_xadd_fin (r m : list R) :
  zipWith xadd (map XFin r) (map XFin m) = map XFin (zipWith Rplus r m).
Proof.
  revert m. induction r as [|x r IH]; intros [|y m]; cbn; try reflexivity.
  f_equal. apply IH.
Qed.

Lemma Rlist_sum_zipWith (r m : list R) :
  length r = length m ->
  Rlist_sum (zipWith Rplus r m) = Rlist_sum r + Rlist_sum m.
Proof.
  revert m. induction r as [|x r IH]; intros [|y m] H; simpl in H; try discriminate.
  - cbn. ring.
  - cbn [zipWith Rlist_sum fold_right].
    fold (Rlist_sum (zipWith Rplus r m)). fold (Rlist_sum r). fold (Rlist_sum m).
    rewrite IH by lia. ring.
Qed.

Lemma fold_xadd_fin (t : list R) (x : R) :
  fold_left xadd (map XFin t) (XFin x) = XFin (x + Rlist_sum t).
Proof.
  revert x. induction t as [|y t IH]; intros x.
  - cbn. f_equal. ring.
  - cbn [map fold_left xadd]. rewrite IH. cbn [Rlist_sum fold_right].
    fold (Rlist_sum t). f_equal. ring.
Qed.

Lemma reduce_xadd_fin (a : list R) :
  reduce (FO:=XR) fadd fzero (map XFin a) = XFin (Rlist_sum a).
Proof.
  destruct a as [|x t]; [reflexivity|].
  cbn [map reduce fadd XR]. apply fold_xadd_fin.
Qed.

(** The eight running sums lose nothing as long as there are eight of them. *)
Lemma add_blocks_fin (k : nat) (r l : list R) :
  exists r' l',
    add_blocks (FO:=XR) k (map XFin r) (map XFin l) = (map XFin r', map XFin l') /\
    (length r' <= length r)%nat /\
    (length r' = 8%nat -> length r = 8%nat ->
     Rlist_sum r' + Rlist_sum l' = Rlist_sum r + Rlist_sum l).
Proof.
  revert r l. induction k as [|k IH]; intros r l.
  - exists r, l. split; [reflexivity | split; [lia | intros; reflexivity]].
  - cbn [add_blocks fadd XR].
    rewrite firstn_map, skipn_map, zipWith_xadd_fin.
    destruct (IH (zipWith Rplus r (firstn 8 l)) (skipn 8 l)) as (r' & l' & E & Hle & Hsum).
    exists r', l'. split; [exact E|].
    pose proof (zipWith_length Rplus r (firstn 8 l)) as Hz.
    pose proof (length_firstn 8 l) as Hf.
    split; [lia|].
    intros H8 Hr. rewrite Hsum by lia.
    rewrite Rlist_sum_zipWith by lia.
    rewrite <- (Rlist_sum_firstn_skipn 8 l). ring.
Qed.

Lemma sum_block_fin (a : list R) : sum_block (FO:=XR) (map XFin a) = XFin (Rlist_sum a).
Proof.
  unfold sum_block. rewrite length_map, firstn_map, skipn_map.
  destruct (add_blocks_fin (length a / 8 - 1) (firstn 8 a) (skipn 8 a))
    as (r' & l' & E & Hle & Hsum).
  rewrite E.
  destruct r' as [|r0 [|r1 [|r2 [|r3 [|r4 [|r5 [|r6 [|r7 [|r8 r']]]]]]]]];
    cbn [map]; try apply reduce_xadd_fin.
  cbn [fadd XR xadd]. rewrite fold_xadd_fin. f_equal.
  pose proof (length_firstn 8 a) as Hf. cbn [length] in Hle.
  assert (Hs := Hsum eq_refl ltac:(lia)).
  rewrite <- (Rlist_sum_firstn_skipn 8 a), <- Hs.
  cbn [Rlist_sum fold_right]. fold (Rlist_sum l'). ring.
Qed.

Lemma pairwise_sum_fin (fuel : nat) (a : list R) :
  pairwise_sum (FO:=XR) fuel (map XFin a) = XFin (Rlist_sum a).
Proof.
  revert a. induction fuel as [|fuel IH]; intros a; cbn [pairwise_sum];
    rewrite ?length_map;
    destruct (length a <? 8)%nat; try apply reduce_xadd_fin;
    destruct (length a <=? 128)%nat; try apply sum_block_fin.
  rewrite firstn_map, skipn_map, !IH. cbn [fadd XR xadd]. f_equal.
  apply Rlist_sum_firstn_skipn.
Qed.

(** In exact arithmetic [np.sum] is the sum. *)
Lemma np_sum_fin (a : list R) : np_sum (FO:=XR) (map XFin a) = XFin (Rlist_sum a).
Proof. unfold np_sum. apply pairwise_sum_fin. Qed.

End ExactSums.

(** ** The all-zero signal in exact arithmetic *)

Section ExactFlat.
Local Existing Instance XR.
Local Existing Instance XR_laws.
Local Open Scope R_scope.

(** The carrier of [XR] is [xreal]; goals are brought to that spelling
    before rewriting with the lemmas of this section. *)
Ltac xreal_carrier := change (@F XR) with xreal in *.

Lemma returns_of_fin_nth_S (ps : list R) (i : nat) :
  (S i < length ps)%nat -> nth i ps 0 <> 0 ->
  nth (S i) (returns_of (map XFin ps)) XNan = XFin (nth (S i) ps 0 / nth i ps 0 - 1).
Proof.
  intros Hi Hp.
  rewrite (returns_of_nth_S (FO:=XR)) by (rewrite length_map; exact Hi).
  rewrite !nth_map_XFin by lia.
  cbv zeta. cbn [fdiv fsub isnan XR]. rewrite xdiv_fin by exact Hp. reflexivity.
Qed.

Lemma np_sum_zeros (n : nat) : np_sum (repeat (XFin 0) n) = XFin 0.
Proof.
  replace (repeat (XFin 0) n) with (map XFin (repeat 0 n)) by apply map_repeat.
  rewrite np_sum_fin, Rlist_sum_repeat. f_equal. ring.
Qed.

Lemma repeat_XFin (c : R) (n : nat) : repeat (XFin c) n = map XFin (repeat c n).
Proof. symmetry. apply map_repeat. Qed.

Lemma accumulate_from_ones (n : nat) :
  accumulate_from xmul (XFin 1) (repeat (XFin 1) n) = repeat (XFin 1) n.
Proof.
  induction n as [|n IH]; [reflexivity|].
  cbn [repeat accumulate_from xmul]. replace (1 * 1) with 1 by ring.
  f_equal. exact IH.
Qed.

Lemma zipWith_mask_fin (c : R) (n : nat) :
  zipWith (fun x r : xreal => if xisnan x then XNan else r)
          (repeat (XFin c) n) (repeat (XFin c) n) = repeat (XFin c) n.
Proof.
  induction n as [|n IH]; [reflexivity|]. cbn. f_equal. exact IH.
Qed.

(** A flat strategy leaves the equity at 1. *)
Lemma equity_of_zeros (n : nat) :
  equity_of (repeat (XFin 0) n) = repeat (XFin 1) n.
Proof.
  unfold equity_of, cumprod, na_accum_func.
  rewrite map_repeat. cbn [fadd fone of_Z XR xadd].
  replace (1 + 0) with 1 by ring.
  rewrite repeat_XFin, fill_fin, <- repeat_XFin.
  destruct n as [|n]; [reflexivity|].
  cbn [repeat accumulate fmul XR isnan]. rewrite accumulate_from_ones.
  apply (zipWith_mask_fin 1 (S n)).
Qed.

Lemma series_std_zeros (n : nat) :
  (2 <= n)%nat -> series_std (repeat (XFin 0) n) = XFin 0.
Proof.
  intros Hn.
  assert (Hcount : notna_count (repeat (XFin 0) n) = n)
    by (rewrite repeat_XFin, notna_count_fin; apply repeat_length).
  assert (Hfill : fillna fzero (repeat (XFin 0) n) = repeat (XFin 0) n)
    by (unfold fillna; rewrite repeat_XFin; apply fill_fin).
  assert (Hc : IZR (Z.of_nat n) <> 0) by (apply not_0_IZR; lia).
  assert (Hd : IZR (Z.of_nat (n - 1)) <> 0) by (apply not_0_IZR; lia).
  unfold series_std, series_var. cbv zeta. rewrite Hcount, Hfill.
  destruct (Nat.leb_spec n 1) as [Hle|_]; [lia|].
  rewrite np_sum_zeros.
  unfold of_nat. cbn [fdiv fsub fmul isnan fzero of_Z XR].
  rewrite (xdiv_fin 0 Hc). rewrite map_repeat. cbn [xisnan xsub xmul].
  replace ((0 / IZR (Z.of_nat n) - 0) * (0 / IZR (Z.of_nat n) - 0)) with 0
    by (field; exact Hc).
  rewrite np_sum_zeros, (xdiv_fin 0 Hd).
  replace (0 / IZR (Z.of_nat (n - 1))) with 0 by (field; exact Hd).
  cbn [fsqrt XR xsqrt]. destruct (Rlt_dec 0 0) as [H|_]; [lra|].
  rewrite sqrt_0. reflexivity.
Qed.

Lemma sharpe_of_zeros (n : nat) :
  (2 <= n)%nat -> sharpe_of (repeat (XFin 0) n) fzero = XFin 0.
Proof.
  intros Hn. unfold sharpe_of, excess_returns.
  rewrite map_repeat. cbn [fdiv fsub fzero of_Z XR].
  assert (H252 : 252 <> 0) by lra.
  rewrite (xdiv_fin 0 H252). cbn [xsub].
  replace (0 - 0 / 252) with 0 by (field; exact H252).
  xreal_carrier. rewrite (series_std_zeros Hn). cbn [feqb XR xeqb].
  destruct (Req_dec_T 0 0) as [_|H]; [reflexivity | contradiction].
Qed.

Lemma drawdown_of_ones (n : nat) :
  (1 <= n)%nat -> drawdown_of (repeat (XFin 1) n) = XFin 0.
Proof.
  intros Hn. rewrite repeat_XFin.
  assert (Hnth : forall i, (i < n)%nat -> nth i (repeat 1 n) 0 = 1)
    by (intros i Hi; apply nth_repeat_lt, Hi).
  assert (Hpos : 0 < nth 0 (repeat 1 n) 0) by (rewrite Hnth by lia; lra).
  rewrite drawdown_of_fin by exact Hpos. f_equal.
  apply min_drawdown_non_decreasing; [exact Hpos|].
  intros i Hi. rewrite repeat_length in Hi. rewrite !Hnth by lia. lra.
Qed.

(** With two or more bars of non-zero prices, the all-zero signal gives
    all-zero strategy returns, an equity of 1.0 throughout, and
    totalReturn = sharpe = maxDrawdown = 0. *)
Lemma flat_signal_exact (ps : list R) (f : list xreal -> list xreal) :
  (2 <= length ps)%nat ->
  (forall p, In p ps -> p <> 0) ->
  f (map XFin ps) = repeat (XFin 0) (length ps) ->
  run (__init__ (map XFin ps) f) =
  (__init__ (map XFin ps) f,
   Ok (repeat (XFin 0) (length ps), repeat (XFin 1) (length ps),
       {| total_return := XFin 0; sharpe := XFin 0; max_drawdown := XFin 0 |})).
Proof.
  intros HN Hnz Hf.
  assert (Hne : prices (__init__ (map XFin ps) f) <> [])
    by (destruct ps; [simpl in HN; lia | discriminate]).
  assert (Hlen : length (strategy_func (__init__ (map XFin ps) f)
                                       (prices (__init__ (map XFin ps) f))) =
                 length (prices (__init__ (map XFin ps) f)))
    by (cbn [strategy_func prices __init__]; rewrite Hf, repeat_length, length_map; reflexivity).
  rewrite (run_ok _ Hne Hlen). cbv zeta. cbn [strategy_func prices __init__].
  rewrite Hf, length_map.
  assert (Hsr : strat_rets_of (map XFin ps) (repeat (XFin 0) (length ps)) =
                repeat (XFin 0) (length ps)).
  { apply (nth_ext _ _ XNan XNan).
    - rewrite (strat_rets_of_length (FO:=XR)), repeat_length, length_map;
        [reflexivity | rewrite repeat_length, length_map; reflexivity].
    - intros i Hi.
      rewrite (strat_rets_of_length (FO:=XR)), length_map in Hi
        by (rewrite repeat_length, length_map; reflexivity).
      rewrite nth_repeat_lt by exact Hi.
      destruct i as [|i].
      + apply (strat_rets_of_nth_0 (FO:=XR));
          [rewrite repeat_length, length_map; reflexivity
          | destruct ps; [simpl in HN; lia | discriminate]].
      + rewrite (strat_rets_of_nth (FO:=XR))
          by (rewrite ?repeat_length, ?length_map; solve [reflexivity | exact Hi]).
        rewrite (shifted_signals_of_nth_S (FO:=XR)) by (rewrite repeat_length; exact Hi).
        rewrite nth_repeat_lt by lia.
        rewrite returns_of_fin_nth_S by (try exact Hi; apply Hnz, nth_In; lia).
        cbn. f_equal. ring. }
  rewrite Hsr, equity_of_zeros.
  unfold summary_of.
  rewrite (sharpe_of_zeros HN), drawdown_of_ones by lia.
  rewrite nth_repeat_lt by lia.
  cbn [fsub fone of_Z XR xsub]. replace (1 - 1) with 0 by ring. reflexivity.
Qed.

End ExactFlat.

(** ** The example strategies: rolling windows and comparisons *)

Lemma B64_nan_laws : NanLaws B64.
Proof.
  split; cbn [isnan fleb feqb fsqrt B64].
  - intros x y Hn. apply b64_is_nan_spec in Hn.
    rewrite leb_spec, Hn. reflexivity.
  - intros x y Hn. apply b64_is_nan_spec in Hn.
    rewrite leb_spec, Hn. destruct (Prim2SF x) as [[]|[]| |[]]; reflexivity.
  - intros x y Hn. apply b64_is_nan_spec in Hn.
    rewrite eqb_spec, Hn. reflexivity.
  - intros x Hn. apply b64_is_nan_spec in Hn. apply b64_is_nan_spec.
    rewrite sqrt_spec, Hn. reflexivity.
Qed.

Lemma XR_nan_laws : NanLaws XR.
Proof.
  split; cbn.
  - intros [| |] y Hn; try discriminate. reflexivity.
  - intros x [| |] Hn; try discriminate. destruct x; reflexivity.
  - intros [| |] y Hn; try discriminate. reflexivity.
  - intros [| |] Hn; try discriminate. reflexivity.
Qed.

(** On binary64 the derived [<] is the IEEE comparison. *)
Lemma b64_fltb_is_ltb (a b : float) : fltb (FO := B64) a b = PrimFloat.ltb a b.
Proof.
  unfold fltb. cbn [fleb feqb B64].
  rewrite leb_spec, eqb_spec, ltb_spec.
  unfold SFleb, SFeqb, SFltb.
  destruct (SFcompare (Prim2SF a) (Prim2SF b)) as [[| |]|]; reflexivity.
Qed.

Section RollingFacts.
Context {FO : FloatOps}.

Lemma rolling_length (w : nat) (agg : list F -> F) (s : list F) :
  length (rolling w agg s) = length s.
Proof. unfold rolling. rewrite length_map, length_seq. reflexivity. Qed.

Lemma rolling_nth (w : nat) (agg : list F -> F) (s : list F) (i : nat) (d : F) :
  i < length s ->
  nth i (rolling w agg s) d =
  if (S i <? w)%nat then fnan
  else if existsb isnan (window_at w i s) then fnan
       else agg (window_at w i s).
Proof.
  intros Hi. unfold rolling.
  rewrite (map_nth_lt _ _ 0 d) by (rewrite length_seq; exact Hi).
  rewrite seq_nth by exact Hi. reflexivity.
Qed.

(** Until [w] bars are available the rolling aggregate is missing. *)
Lemma rolling_warm_up (w : nat) (agg : list F -> F) (s : list F) (i : nat) (d : F) :
  i < length s -> S i < w -> nth i (rolling w agg s) d = fnan.
Proof.
  intros Hi Hw. rewrite rolling_nth by exact Hi.
  destruct (Nat.ltb_spec (S i) w); [reflexivity | lia].
Qed.

Lemma ma_crossover_length (p : list F) (short long : nat) :
  length (ma_crossover_strategy p short long) = length p.
Proof.
  unfold ma_crossover_strategy.
  rewrite zipWith_length, !rolling_length. apply Nat.min_id.
Qed.

Lemma ma_crossover_nth (p : list F) (short long i : nat) :
  i < length p ->
  nth i (ma_crossover_strategy p short long) 0%Z =
  (astype_int (fgtb (nth i (rolling short series_mean p) fnan)
                    (nth i (rolling long series_mean p) fnan))
   - astype_int (fltb (nth i (rolling short series_mean p) fnan)
                      (nth i (rolling long series_mean p) fnan)))%Z.
Proof.
  intros Hi. unfold ma_crossover_strategy.
  rewrite (zipWith_nth _ _ _ fnan fnan 0%Z) by (rewrite rolling_length; exact Hi).
  reflexivity.
Qed.

Lemma z_scores_length (p : list F) (lookback : nat) :
  length (z_scores p lookback) = length p.
Proof.
  unfold z_scores. rewrite !zipWith_length, !rolling_length. lia.
Qed.

Lemma z_scores_nth (p : list F) (lookback i : nat) :
  i < length p ->
  nth i (z_scores p lookback) fnan =
  fdiv (fsub (nth i p fnan) (nth i (rolling lookback series_mean p) fnan))
       (nth i (rolling lookback series_std p) fnan).
Proof.
  intros Hi. unfold z_scores.
  rewrite (zipWith_nth _ _ _ fnan fnan fnan)
    by (rewrite ?zipWith_length, ?rolling_length; lia).
  rewrite (zipWith_nth _ _ _ fnan fnan fnan) by (rewrite ?rolling_length; lia).
  reflexivity.
Qed.

Lemma mean_reversion_length (p : list F) (lookback : nat) (z_entry : F) :
  length (mean_reversion_strategy p lookback z_entry) = length p.
Proof.
  unfold mean_reversion_strategy. rewrite length_map. apply z_scores_length.
Qed.

Lemma mean_reversion_nth (p : list F) (lookback : nat) (z_entry : F) (i : nat) :
  i < length p ->
  nth i (mean_reversion_strategy p lookback z_entry) 0%Z =
  let z := nth i (z_scores p lookback) fnan in
  if fltb z (fneg z_entry) then 1%Z else if fgtb z z_entry then (-1)%Z else 0%Z.
Proof.
  intros Hi. unfold mean_reversion_strategy.
  rewrite (map_nth_lt _ _ fnan 0%Z) by (rewrite z_scores_length; exact Hi).
  reflexivity.
Qed.

Lemma zipWith_In {A B C} (f : A -> B -> C) (a : list A) (b : list B) (c : C) :
  In c (zipWith f a b) -> exists x y, c = f x y.
Proof.
  revert b. induction a as [|x a IH]; intros [|y b] H; simpl in H; try contradiction.
  destruct H as [<-|H]; [eauto | exact (IH b H)].
Qed.

End RollingFacts.

Section StrategyContracts.
Context {FO : FloatOps}.

(** X1: [ma_crossover_strategy] returns one signal for every bar, each
    of them -1, 0 or 1, whatever the two window lengths are. *)
Theorem ma_crossover_signal_contract (p : list F) (short long : nat) :
  length (ma_crossover_strategy p short long) = length p /\
  forall x, In x (ma_crossover_strategy p short long) ->
            x = (-1)%Z \/ x = 0%Z \/ x = 1%Z.
Proof.
  split; [apply ma_crossover_length|].
  intros x Hx. unfold ma_crossover_strategy in Hx.
  apply zipWith_In in Hx. destruct Hx as (s & l & ->).
  destruct (fgtb s l), (fltb s l); cbn; auto.
Qed.

(** X2: [mean_reversion_strategy] returns one signal for every bar,
    each of them -1, 0 or 1, whatever the lookback and the threshold. *)
Theorem mean_reversion_signal_contract (p : list F) (lookback : nat) (z_entry : F) :
  length (mean_reversion_strategy p lookback z_entry) = length p /\
  forall x, In x (mean_reversion_strategy p lookback z_entry) ->
            x = (-1)%Z \/ x = 0%Z \/ x = 1%Z.
Proof.
  split; [apply mean_reversion_length|].
  intros x Hx. unfold mean_reversion_strategy in Hx.
  apply in_map_iff in Hx. destruct Hx as (z & <- & _).
  destruct (fltb z (fneg z_entry)); [auto|].
  destruct (fgtb z z_entry); auto.
Qed.

(** X3: exchanging the two windows of [ma_crossover_strategy] reverses
    every signal, and with equal windows there is no signal at all. *)
Theorem ma_crossover_swap_windows (p : list F) (short long : nat) :
  ma_crossover_strategy p long short =
  map Z.opp (ma_crossover_strategy p short long) /\
  ma_crossover_strategy p short short = repeat 0%Z (length p).
Proof.
  split.
  - apply (nth_ext _ _ 0%Z 0%Z).
    + rewrite length_map, !ma_crossover_length. reflexivity.
    + intros i Hi. rewrite ma_crossover_length in Hi.
      rewrite (map_nth_lt Z.opp _ 0%Z 0%Z) by (rewrite ma_crossover_length; exact Hi).
      rewrite !ma_crossover_nth by exact Hi.
      unfold fgtb. lia.
  - apply (nth_ext _ _ 0%Z 0%Z).
    + rewrite repeat_length. apply ma_crossover_length.
    + intros i Hi. rewrite ma_crossover_length in Hi.
      rewrite nth_repeat_lt by exact Hi.
      rewrite ma_crossover_nth by exact Hi. unfold fgtb. lia.
Qed.

End StrategyContracts.

(** ** The example strategies: bars without a signal *)

Section StrategyWarmUp.
Context {FO : FloatOps} {FL : FloatLaws FO} {NL : NanLaws FO}.

Lemma fltb_nan_l (x y : F) : isnan x = true -> fltb x y = false.
Proof. intros H. unfold fltb. rewrite (fleb_nan_l x y H). reflexivity. Qed.

Lemma fltb_nan_r (x y : F) : isnan y = true -> fltb x y = false.
Proof. intros H. unfold fltb. rewrite (fleb_nan_r x y H). reflexivity. Qed.

Lemma notna_count_le_length (s : list F) : notna_count s <= length s.
Proof. unfold notna_count. apply filter_length_le. Qed.

(** The sample standard deviation needs two observations. *)
Lemma series_std_nan (s : list F) :
  notna_count s <= 1 -> isnan (series_std s) = true.
Proof.
  intros Hn. unfold series_std, series_var. cbv zeta.
  destruct (Nat.leb_spec (notna_count s) 1) as [_|H]; [|lia].
  apply isnan_fsqrt, isnan_fdiv_r, isnan_fnan.
Qed.

Lemma crossover_of_nan (a b : F) :
  isnan a = true \/ isnan b = true ->
  (astype_int (fgtb a b) - astype_int (fltb a b))%Z = 0%Z.
Proof.
  unfold fgtb. intros [H|H].
  - rewrite (fltb_nan_l a b H), (fltb_nan_r b a H). reflexivity.
  - rewrite (fltb_nan_r a b H), (fltb_nan_l b a H). reflexivity.
Qed.

Lemma reversion_of_nan (z t : F) :
  isnan z = true ->
  (if fltb z (fneg t) then 1%Z else if fgtb z t then (-1)%Z else 0%Z) = 0%Z.
Proof.
  intros H. unfold fgtb.
  rewrite (fltb_nan_l z (fneg t) H), (fltb_nan_r t z H). reflexivity.
Qed.

Lemma window_at_length (w i : nat) (s : list F) : length (window_at w i s) <= w.
Proof. unfold window_at. rewrite length_firstn. lia. Qed.

(** With a lookback of 0 or 1 the rolling standard deviation is missing
    at every bar. *)
Lemma rolling_std_short_lookback (p : list F) (lookback i : nat) :
  i < length p -> lookback <= 1 ->
  isnan (nth i (rolling lookback series_std p) fnan) = true.
Proof.
  intros Hi Hl. rewrite rolling_nth by exact Hi.
  destruct (S i <? lookback)%nat; [apply isnan_fnan|].
  destruct (existsb isnan (window_at lookback i p)); [apply isnan_fnan|].
  apply series_std_nan.
  pose proof (notna_count_le_length (window_at lookback i p)).
  pose proof (window_at_length lookback i p). lia.
Qed.

Lemma all_zero_repeat (l : list Z) :
  (forall i, i < length l -> nth i l 0%Z = 0%Z) -> l = repeat 0%Z (length l).
Proof.
  intros H. apply (nth_ext _ _ 0%Z 0%Z).
  - rewrite repeat_length. reflexivity.
  - intros i Hi. rewrite nth_repeat_lt by exact Hi. apply H, Hi.
Qed.

Lemma ma_crossover_no_average_yet (p : list F) (short long i : nat) :
  i < length p -> S i < short \/ S i < long ->
  nth i (ma_crossover_strategy p short long) 0%Z = 0%Z.
Proof.
  intros Hi Hw. rewrite ma_crossover_nth by exact Hi.
  apply crossover_of_nan.
  destruct Hw as [Hw|Hw]; [left | right];
    rewrite rolling_warm_up by assumption; apply isnan_fnan.
Qed.

Lemma ma_crossover_short_history (p : list F) (short long : nat) :
  length p < short \/ length p < long ->
  ma_crossover_strategy p short long = repeat 0%Z (length p).
Proof.
  intros Hshort.
  pose proof (all_zero_repeat (ma_crossover_strategy p short long)) as Hall.
  rewrite ma_crossover_length in Hall. apply Hall.
  intros i Hi. apply ma_crossover_no_average_yet; [exact Hi | lia].
Qed.

(** X4: [ma_crossover_strategy] gives no signal at a bar where one of
    the two moving averages is not yet available (fewer than [short] or
    fewer than [long] bars so far); on a history shorter than one of
    the windows every signal is 0. *)
Theorem ma_crossover_warm_up (p : list F) (short long : nat) :
  (forall i, i < length p -> S i < short \/ S i < long ->
             nth i (ma_crossover_strategy p short long) 0%Z = 0%Z) /\
  (length p < short \/ length p < long ->
   ma_crossover_strategy p short long = repeat 0%Z (length p)).
Proof.
  split.
  - intros i. apply ma_crossover_no_average_yet.
  - apply ma_crossover_short_history.
Qed.

Lemma mean_reversion_of_nan_z (p : list F) (lookback : nat) (z_entry : F) (i : nat) :
  i < length p ->
  isnan (nth i (z_scores p lookback) fnan) = true ->
  nth i (mean_reversion_strategy p lookback z_entry) 0%Z = 0%Z.
Proof.
  intros Hi Hz. rewrite mean_reversion_nth by exact Hi. cbv zeta.
  apply reversion_of_nan, Hz.
Qed.

Lemma mean_reversion_of_nan_std (p : list F) (lookback : nat) (z_entry : F) (i : nat) :
  i < length p ->
  isnan (nth i (rolling lookback series_std p) fnan) = true ->
  nth i (mean_reversion_strategy p lookback z_entry) 0%Z = 0%Z.
Proof.
  intros Hi Hs. apply mean_reversion_of_nan_z; [exact Hi|].
  rewrite z_scores_nth by exact Hi. apply isnan_fdiv_r, Hs.
Qed.

Lemma mean_reversion_short_history (p : list F) (lookback : nat) (z_entry : F) :
  length p < lookback \/ lookback <= 1 ->
  mean_reversion_strategy p lookback z_entry = repeat 0%Z (length p).
Proof.
  intros H.
  pose proof (all_zero_repeat (mean_reversion_strategy p lookback z_entry)) as Hall.
  rewrite mean_reversion_length in Hall. apply Hall.
  intros i Hi. apply mean_reversion_of_nan_std; [exact Hi|].
  destruct H as [H|H].
  - rewrite rolling_warm_up by (try exact Hi; lia). apply isnan_fnan.
  - apply rolling_std_short_lookback; assumption.
Qed.

(** X5: [mean_reversion_strategy] gives no signal during the first
    [lookback - 1] bars, and none at all on a history shorter than the
    lookback or with a lookback of 0 or 1 (the rolling standard
    deviation of a single bar is missing). *)
Theorem mean_reversion_warm_up (p : list F) (lookback : nat) (z_entry : F) :
  (forall i, i < length p -> S i < lookback ->
             nth i (mean_reversion_strategy p lookback z_entry) 0%Z = 0%Z) /\
  (length p < lookback \/ lookback <= 1 ->
   mean_reversion_strategy p lookback z_entry = repeat 0%Z (length p)).
Proof.
  split.
  - intros i Hi Hw. apply mean_reversion_of_nan_std; [exact Hi|].
    rewrite rolling_warm_up by assumption. apply isnan_fnan.
  - apply mean_reversion_short_history.
Qed.

End StrategyWarmUp.

(** ** More about the Backtester on the generic embedding *)

Section BacktesterFacts.
Context {FO : FloatOps} {FL : FloatLaws FO} {NL : NanLaws FO}.

Lemma fillna_numbers (v : F) (s : list F) (x : F) :
  isnan v = false -> In x (fillna v s) -> isnan x = false.
Proof.
  intros Hv Hx. unfold fillna in Hx. apply in_map_iff in Hx.
  destruct Hx as (y & <- & _). destruct (isnan y) eqn:E; assumption.
Qed.

(** X6: the return series and the lagged signal series never hold a
    missing value: every NaN is replaced by 0.  In particular a NaN
    signal is traded as flat on the next bar. *)
Theorem returns_and_lagged_signals_are_numbers (p signals : list F) :
  (forall x, In x (returns_of p) -> isnan x = false) /\
  (forall x, In x (shifted_signals_of signals) -> isnan x = false) /\
  (forall i, S i < length signals -> isnan (nth i signals fnan) = true ->
             nth (S i) (shifted_signals_of signals) fnan = fzero).
Proof.
  split; [intros x; apply fillna_numbers, isnan_fzero|].
  split; [intros x; apply fillna_numbers, isnan_fzero|].
  intros i Hi Hn. rewrite shifted_signals_of_nth_S by exact Hi.
  rewrite Hn. reflexivity.
Qed.

(** X7: [run] uses the prices only through [compute_returns]: two
    Backtesters whose return series agree and whose strategies give the
    same signals produce the same output (or raise the same exception). *)
Theorem run_depends_on_returns_only (b1 b2 : Backtester) :
  snd (compute_returns b1) = snd (compute_returns b2) ->
  strategy_func b1 (prices b1) = strategy_func b2 (prices b2) ->
  snd (run b1) = snd (run b2).
Proof.
  intros Hr Hs. rewrite !compute_returns_eq in Hr. cbn [snd] in Hr.
  injection Hr as Hr.
  assert (Hl : length (prices b1) = length (prices b2))
    by (rewrite <- (returns_of_length (prices b1)), Hr; apply returns_of_length).
  rewrite !run_eq. cbn [snd]. unfold Series_with_index, strat_rets_of.
  rewrite Hs, Hl, Hr. reflexivity.
Qed.

Lemma notna_count_excess_le (rets : list F) (rf : F) :
  notna_count (excess_returns rets rf) <= length rets.
Proof.
  pose proof (notna_count_le_length (excess_returns rets rf)) as H.
  unfold excess_returns in H. rewrite length_map in H. exact H.
Qed.

Lemma sharpe_of_nan (rets : list F) (rf : F) :
  notna_count (excess_returns rets rf) <= 1 ->
  isnan (sharpe_of rets rf) = true.
Proof.
  intros Hn. unfold sharpe_of. cbv zeta.
  pose proof (series_std_nan _ Hn) as Hstd.
  rewrite (feqb_nan_l _ fzero Hstd).
  apply isnan_fdiv_r, Hstd.
Qed.

(** X8: with fewer than two returns that are numbers (after the
    risk-free rate is taken off), [_sharpe] returns NaN: the sample
    standard deviation is missing and the guard [std == 0] lets it pass. *)
Theorem sharpe_needs_two_observations (self : Backtester) (rets : list F) (rf : F) :
  notna_count (excess_returns rets rf) <= 1 ->
  exists v, _sharpe rets rf self = (self, Ok v) /\ isnan v = true.
Proof.
  intros Hn. exists (sharpe_of rets rf).
  split; [apply _sharpe_eq | apply sharpe_of_nan, Hn].
Qed.

(** X9: a backtest over a single bar, whatever the price and the
    signal: the strategy return is 0, the equity is 1, and the Sharpe
    ratio is NaN. *)
Theorem one_bar_run (self : Backtester) (p : F) :
  prices self = [p] ->
  length (strategy_func self [p]) = 1 ->
  exists summary,
    run self = (self, Ok ([fzero], [fone], summary)) /\
    total_return summary = fsub fone fone /\
    isnan (sharpe summary) = true.
Proof.
  intros Hp Hl.
  assert (Hne : prices self <> []) by (rewrite Hp; discriminate).
  assert (Hlen : length (strategy_func self (prices self)) = length (prices self))
    by (rewrite Hp; exact Hl).
  pose proof (run_ok self Hne Hlen) as Hrun. cbv zeta in Hrun.
  assert (Hsr : strat_rets_of (prices self) (strategy_func self (prices self)) = [fzero]).
  { pose proof (strat_rets_of_length _ _ Hlen) as Hn.
    pose proof (@strat_rets_of_nth_0 _ _ _ _ fnan Hlen Hne) as H0.
    assert (Hn1 : length (strat_rets_of (prices self) (strategy_func self (prices self))) = 1)
      by (rewrite Hn, Hp; reflexivity).
    clear Hn.
    destruct (strat_rets_of (prices self) (strategy_func self (prices self)))
      as [|x [|y t]]; try discriminate.
    cbn [nth] in H0. rewrite H0. reflexivity. }
  assert (Heq : equity_of [fzero] = [fone]).
  { unfold equity_of, cumprod, na_accum_func. cbn [map accumulate zipWith].
    rewrite fadd_1_0, isnan_fone. reflexivity. }
  rewrite Hsr, Heq, Hp in Hrun. cbn [length Nat.sub nth] in Hrun.
  eexists. split; [exact Hrun|]. split; [reflexivity|].
  cbn [sharpe summary_of]. apply sharpe_of_nan.
  pose proof (notna_count_excess_le [fzero] fzero). simpl in *. lia.
Qed.

End BacktesterFacts.

(** ** The example strategies in a Backtester *)

Section StrategiesInBacktester.
Context {FO : FloatOps}.

Lemma int_signals_length (f : list F -> list Z) (p : list F) :
  length (int_signals f p) = length (f p).
Proof. unfold int_signals. apply length_map. Qed.

(** X10: both example strategies return as many signals as there are
    bars, so a Backtester built on one of them never raises for a
    non-empty price series, whatever the window lengths and threshold;
    on an empty price series [run] raises IndexError. *)
Theorem example_strategies_run (p : list F) (short long lookback : nat) (z_entry : F) :
  let crossover :=
      __init__ p (int_signals (fun q => ma_crossover_strategy q short long)) in
  let reversion :=
      __init__ p (int_signals (fun q => mean_reversion_strategy q lookback z_entry)) in
  (p <> [] ->
   (exists strat_rets equity summary,
       run crossover = (crossover, Ok (strat_rets, equity, summary)) /\
       length strat_rets = length p /\ length equity = length p) /\
   (exists strat_rets equity summary,
       run reversion = (reversion, Ok (strat_rets, equity, summary)) /\
       length strat_rets = length p /\ length equity = length p)) /\
  (p = [] ->
   run crossover = (crossover, Raise IndexError) /\
   run reversion = (reversion, Raise IndexError)).
Proof.
  intros crossover reversion.
  assert (Hc : length (strategy_func crossover (prices crossover)) =
               length (prices crossover))
    by (cbn [strategy_func prices crossover __init__];
        rewrite int_signals_length; apply ma_crossover_length).
  assert (Hr : length (strategy_func reversion (prices reversion)) =
               length (prices reversion))
    by (cbn [strategy_func prices reversion __init__];
        rewrite int_signals_length; apply mean_reversion_length).
  split.
  - intros Hne. split.
    + eexists _, _, _. split; [apply (run_ok crossover Hne Hc)|].
      split; [|rewrite equity_of_length]; apply (strat_rets_of_length _ _ Hc).
    + eexists _, _, _. split; [apply (run_ok reversion Hne Hr)|].
      split; [|rewrite equity_of_length]; apply (strat_rets_of_length _ _ Hr).
  - intros He. split.
    + rewrite (run_raises crossover (or_introl He)), Hc, Nat.eqb_refl. reflexivity.
    + rewrite (run_raises reversion (or_introl He)), Hr, Nat.eqb_refl. reflexivity.
Qed.

End StrategiesInBacktester.

Section ProductFacts.
Context {FO : FloatOps}.

Lemma product_0_to_S (l : list F) (i : nat) :
  S i < length l ->
  product_0_to (S i) l = fmul (product_0_to i l) (nth (S i) l fnan).
Proof.
  intros Hi. unfold product_0_to.
  rewrite (firstn_S_snoc l fnan Hi).
  destruct l as [|x t]; [simpl in Hi; lia|].
  cbn [firstn app reduce]. rewrite fold_left_app. reflexivity.
Qed.

End ProductFacts.

(** ** More about the Backtester in exact arithmetic *)

(** Goals over [XR] are brought to the spelling [xreal] of its carrier
    before rewriting with lemmas stated on [xreal]. *)
Ltac carrier_xreal := change (@F XR) with xreal in *.
Ltac rewrite_xreal H :=
  let E := fresh "E" in pose proof H as E; carrier_xreal; rewrite E; clear E.

Section ExactBacktester.
Local Existing Instance XR.
Local Existing Instance XR_laws.
Local Existing Instance XR_nan_laws.
Local Open Scope R_scope.

Lemma nth_map_Rmult (c : R) (ps : list R) (i : nat) :
  (i < length ps)%nat -> nth i (map (Rmult c) ps) 0 = c * nth i ps 0.
Proof. intros Hi. apply (map_nth_lt (Rmult c) ps 0 0 Hi). Qed.

(** X11: the return series does not depend on the unit of the prices:
    multiplying every (non-zero) price by the same non-zero factor
    leaves [compute_returns] unchanged. *)
Theorem compute_returns_scale_invariant (c : R) (ps : list R)
        (f g : list xreal -> list xreal) :
  c <> 0 ->
  (forall p, In p ps -> p <> 0) ->
  snd (compute_returns (__init__ (map XFin (map (Rmult c) ps)) f)) =
  snd (compute_returns (__init__ (map XFin ps) g)).
Proof.
  intros Hc Hnz. rewrite !compute_returns_eq. cbn [snd prices __init__]. f_equal.
  apply (nth_ext _ _ XNan XNan).
  - rewrite !(returns_of_length (FO:=XR)), !length_map. reflexivity.
  - intros i Hi.
    rewrite (returns_of_length (FO:=XR)), !length_map in Hi.
    destruct i as [|i].
    + rewrite !(returns_of_nth_0 (FO:=XR));
        [reflexivity | | ]; destruct ps; simpl in *; solve [lia | discriminate].
    + assert (Hp : nth i ps 0 <> 0) by (apply Hnz, nth_In; lia).
      rewrite !returns_of_fin_nth_S; rewrite ?length_map; try exact Hi; try exact Hp.
      * rewrite !nth_map_Rmult by lia. f_equal. field. split; assumption.
      * rewrite nth_map_Rmult by lia. apply Rmult_integral_contrapositive_currified; assumption.
Qed.

(** *** The always-long strategy *)

Lemma long_strategy_nth (p : list xreal) (i : nat) :
  (i < length p)%nat -> nth i (long_strategy (FO:=XR) p) XNan = XFin 1.
Proof.
  intros Hi. unfold long_strategy.
  rewrite (map_nth_lt _ _ XNan XNan) by exact Hi. reflexivity.
Qed.

Lemma long_strategy_length (p : list xreal) :
  length (long_strategy (FO:=XR) p) = length p.
Proof. apply length_map. Qed.

(** The strategy returns of the long strategy are numbers. *)
Lemma long_strat_rets_nth (ps : list R) (i : nat) :
  (forall p, In p ps -> p <> 0) -> (i < length ps)%nat ->
  nth i (strat_rets_of (map XFin ps) (long_strategy (FO:=XR) (map XFin ps))) XNan =
  XFin (match i with
        | O => 0
        | S j => 1 * (nth i ps 0 / nth j ps 0 - 1)
        end).
Proof.
  intros Hnz Hi.
  assert (Hl : length (long_strategy (FO:=XR) (map XFin ps)) = length (map XFin ps))
    by apply long_strategy_length.
  destruct i as [|j].
  - apply (strat_rets_of_nth_0 (FO:=XR)); [exact Hl|].
    destruct ps; [simpl in Hi; lia | discriminate].
  - rewrite (strat_rets_of_nth (FO:=XR)) by (first [exact Hl | rewrite length_map; exact Hi]).
    rewrite (shifted_signals_of_nth_S (FO:=XR))
      by (rewrite long_strategy_length, length_map; exact Hi).
    rewrite long_strategy_nth by (rewrite length_map; lia).
    rewrite returns_of_fin_nth_S by (try exact Hi; apply Hnz, nth_In; lia).
    reflexivity.
Qed.

(** Compounding the long strategy telescopes: the equity at bar [i] is
    the price relative to the first price. *)
Lemma long_equity_nth (ps : list R) (i : nat) :
  (forall p, In p ps -> p <> 0) -> (i < length ps)%nat ->
  nth i (equity_of (strat_rets_of (map XFin ps) (long_strategy (FO:=XR) (map XFin ps)))) XNan =
  XFin (nth i ps 0 / nth 0 ps 0).
Proof.
  intros Hnz.
  set (sr := strat_rets_of (FO:=XR) (map XFin ps) (long_strategy (FO:=XR) (map XFin ps))).
  assert (Hlen : length sr = length ps).
  { unfold sr. rewrite (strat_rets_of_length (FO:=XR)), length_map;
      [reflexivity | apply long_strategy_length]. }
  assert (Hnum : forall j, (j < length ps)%nat ->
                           isnan (fadd fone (nth j sr fnan)) = false).
  { intros j Hj. unfold sr. cbn [fnan XR].
    rewrite (@long_strat_rets_nth ps j Hnz Hj). reflexivity. }
  induction i as [|i IH]; intros Hi.
  - unfold sr. rewrite (equity_of_nth_0 (FO:=XR)).
    + cbn. f_equal. field. apply Hnz, nth_In, Hi.
    + apply long_strategy_length.
    + destruct ps; [simpl in Hi; lia | discriminate].
  - assert (Hi' : (i < length ps)%nat) by lia.
    specialize (IH Hi').
    rewrite (equity_of_nth (FO:=XR)) in IH |- *;
      try (rewrite Hlen; assumption);
      try (intros j Hj; apply Hnum; lia).
    rewrite (product_0_to_S (FO:=XR)) by (rewrite length_map, Hlen; exact Hi).
    rewrite IH.
    rewrite (map_nth_lt (fadd fone) sr XNan XNan) by (rewrite Hlen; exact Hi).
    unfold sr. rewrite (@long_strat_rets_nth ps (S i) Hnz Hi).
    cbn [fadd fmul fone of_Z XR xadd xmul]. f_equal.
    assert (nth i ps 0 <> 0) by (apply Hnz, nth_In; lia).
    assert (nth 0 ps 0 <> 0) by (apply Hnz, nth_In; lia).
    field. split; assumption.
Qed.

Lemma long_equity (ps : list R) :
  (forall p, In p ps -> p <> 0) ->
  equity_of (strat_rets_of (map XFin ps) (long_strategy (FO:=XR) (map XFin ps))) =
  map XFin (map (fun p => p / nth 0 ps 0) ps).
Proof.
  intros Hnz. apply (nth_ext _ _ XNan XNan).
  - rewrite (equity_of_length (FO:=XR)), (strat_rets_of_length (FO:=XR)), !length_map;
      [reflexivity | apply long_strategy_length].
  - intros i Hi.
    rewrite (equity_of_length (FO:=XR)), (strat_rets_of_length (FO:=XR)), length_map in Hi
      by apply long_strategy_length.
    rewrite_xreal (@long_equity_nth ps i Hnz Hi).
    rewrite nth_map_XFin by (rewrite length_map; exact Hi).
    rewrite (map_nth_lt (fun p => p / nth 0 ps 0) ps 0 0) by exact Hi. reflexivity.
Qed.

(** X12: the always-long strategy is buy and hold: on non-zero prices
    the equity at bar [i] is price[i] / price[0], and the total return
    is price[N-1] / price[0] - 1. *)
Theorem long_strategy_is_buy_and_hold (ps : list R) :
  ps <> [] ->
  (forall p, In p ps -> p <> 0) ->
  let self := __init__ (map XFin ps) (long_strategy (FO:=XR)) in
  exists strat_rets summary,
    run self =
    (self, Ok (strat_rets, map XFin (map (fun p => p / nth 0 ps 0) ps), summary)) /\
    total_return summary = XFin (nth (length ps - 1) ps 0 / nth 0 ps 0 - 1).
Proof.
  intros Hne Hnz self.
  assert (Hne' : prices self <> []) by (destruct ps; [congruence | discriminate]).
  assert (Hlen : length (strategy_func self (prices self)) = length (prices self))
    by apply long_strategy_length.
  pose proof (run_ok self Hne' Hlen) as Hrun. cbv zeta in Hrun.
  cbn [prices strategy_func self __init__] in Hrun.
  rewrite (@long_equity ps Hnz), length_map in Hrun.
  eexists _, _. split; [exact Hrun|].
  cbn [total_return summary_of].
  assert (Hi : (length ps - 1 < length ps)%nat)
    by (destruct ps; [congruence | simpl; lia]).
  rewrite nth_map_XFin by (rewrite length_map; exact Hi).
  rewrite (map_nth_lt (fun p => p / nth 0 ps 0) ps 0 0) by exact Hi.
  reflexivity.
Qed.

End ExactBacktester.

(** ** Drawdown of the long strategy, and a lower bound *)

Section ExactDrawdown.
Local Existing Instance XR.
Local Existing Instance XR_laws.
Local Existing Instance XR_nan_laws.
Local Open Scope R_scope.

Lemma Rmax_div (a b c : R) : 0 < c -> Rmax (a / c) (b / c) = Rmax a b / c.
Proof.
  intros Hc. assert (Hi : 0 < / c) by (apply Rinv_0_lt_compat, Hc).
  destruct (Rle_dec a b) as [H|H].
  - rewrite (Rmax_right a b H). apply Rmax_right.
    unfold Rdiv. apply Rmult_le_compat_r; lra.
  - rewrite (Rmax_left a b) by lra. apply Rmax_left.
    unfold Rdiv. apply Rmult_le_compat_r; lra.
Qed.

Lemma nth_map_div (c : R) (ps : list R) (i : nat) :
  (i < length ps)%nat -> nth i (map (fun p => p / c) ps) 0 = nth i ps 0 / c.
Proof. intros Hi. apply (map_nth_lt (fun p => p / c) ps 0 0 Hi). Qed.

Lemma prefix_max_div (c : R) (ps : list R) (i : nat) :
  0 < c -> (i < length ps)%nat ->
  prefix_max (map (fun p => p / c) ps) i = prefix_max ps i / c.
Proof.
  intros Hc. induction i as [|i IH]; intros Hi.
  - rewrite !prefix_max_0 by (destruct ps; [simpl in Hi; lia | discriminate]).
    apply nth_map_div, Hi.
  - rewrite !prefix_max_S by (rewrite ?length_map; exact Hi).
    rewrite IH by lia. rewrite nth_map_div by exact Hi. apply Rmax_div, Hc.
Qed.

Lemma prefix_max_pos (ps : list R) (i : nat) :
  0 < nth 0 ps 0 -> (i < length ps)%nat -> 0 < prefix_max ps i.
Proof.
  intros H0 Hi.
  assert (nth 0 ps 0 <= prefix_max ps i) by (apply prefix_max_ge; lia). lra.
Qed.

(** The drawdown of a curve does not change when the curve is divided
    by a positive constant. *)
Lemma min_drawdown_div (c : R) (ps : list R) :
  0 < c -> 0 < nth 0 ps 0 ->
  min_drawdown (map (fun p => p / c) ps) = min_drawdown ps.
Proof.
  intros Hc H0. unfold min_drawdown. rewrite length_map.
  replace (map (drawdown_at (map (fun p => p / c) ps)) (seq 0 (length ps)))
    with (map (drawdown_at ps) (seq 0 (length ps))); [reflexivity|].
  apply map_ext_in. intros i Hi. apply in_seq in Hi.
  assert (Hi' : (i < length ps)%nat) by lia.
  unfold drawdown_at.
  rewrite (nth_map_div c ps Hi'), (prefix_max_div ps Hc Hi').
  pose proof (prefix_max_pos ps H0 Hi'). field. split; lra.
Qed.

(** X13: the max drawdown of the always-long strategy on positive
    prices is the max drawdown of the price series itself; it is 0 when
    the prices never fall and below 0 when some price lies strictly
    below an earlier one. *)
Theorem long_strategy_drawdown (ps : list R) :
  ps <> [] ->
  (forall p, In p ps -> 0 < p) ->
  let self := __init__ (map XFin ps) (long_strategy (FO:=XR)) in
  exists strat_rets equity summary,
    run self = (self, Ok (strat_rets, equity, summary)) /\
    max_drawdown summary = XFin (min_drawdown ps) /\
    (non_decreasing ps -> max_drawdown summary = XFin 0) /\
    (has_strict_dip ps -> min_drawdown ps < 0).
Proof.
  intros Hne Hpos self.
  assert (H0 : 0 < nth 0 ps 0)
    by (apply Hpos, nth_In; destruct ps; [congruence | simpl; lia]).
  assert (Hnz : forall p, In p ps -> p <> 0)
    by (intros p Hp; pose proof (Hpos p Hp); lra).
  assert (Hne' : prices self <> []) by (destruct ps; [congruence | discriminate]).
  assert (Hlen : length (strategy_func self (prices self)) = length (prices self))
    by apply long_strategy_length.
  pose proof (run_ok self Hne' Hlen) as Hrun. cbv zeta in Hrun.
  cbn [prices strategy_func self __init__] in Hrun.
  rewrite (@long_equity ps Hnz) in Hrun.
  eexists _, _, _. split; [exact Hrun|].
  assert (Hmd : drawdown_of (map XFin (map (fun p => p / nth 0 ps 0) ps)) =
                XFin (min_drawdown ps)).
  { rewrite drawdown_of_fin.
    - f_equal. apply min_drawdown_div; assumption.
    - rewrite nth_map_div by (destruct ps; [congruence | simpl; lia]).
      apply Rdiv_lt_0_compat; assumption. }
  cbn [max_drawdown summary_of]. rewrite Hmd.
  split; [reflexivity|]. split.
  - intros Hmono. f_equal. apply min_drawdown_non_decreasing; assumption.
  - apply min_drawdown_dip, H0.
Qed.

Lemma fold_Rmin_In (t : list R) (x : R) : In (fold_left Rmin t x) (x :: t).
Proof.
  revert x. induction t as [|y t IH]; intros x; [left; reflexivity|].
  cbn [fold_left]. destruct (IH (Rmin x y)) as [H|H].
  - rewrite <- H. unfold Rmin. destruct (Rle_dec x y); [left | right; left]; reflexivity.
  - right. right. exact H.
Qed.

(** The minimum is attained at some bar. *)
Lemma min_drawdown_attained (e : list R) :
  e <> [] -> exists i, (i < length e)%nat /\ min_drawdown e = drawdown_at e i.
Proof.
  intros Hne. unfold min_drawdown.
  destruct (map (drawdown_at e) (seq 0 (length e))) as [|x t] eqn:E.
  - destruct e; [congruence | discriminate].
  - pose proof (fold_Rmin_In t x) as Hin. rewrite <- E in Hin.
    apply in_map_iff in Hin. destruct Hin as (i & Hi & Hs).
    apply in_seq in Hs. exists i. split; [lia | symmetry; exact Hi].
Qed.

(** What [run] tells about the equity curve it reports. *)
Lemma run_reports_drawdown (self : Backtester) (strat_rets : list xreal)
      (e : list R) (summary : Summary) :
  snd (run self) = Ok (strat_rets, map XFin e, summary) ->
  e <> [] /\ nth 0 e 0 = 1 /\ max_drawdown summary = XFin (min_drawdown e).
Proof.
  intros Hrun. apply (run_inv (FO:=XR)) in Hrun.
  destruct Hrun as (Hne & Hlen & Hsr & Heq & Hsum).
  pose proof (equity_of_nth_0 (FO:=XR) (strategy_func self (prices self)) Hlen Hne) as H1.
  rewrite <- Hsr, <- Heq in H1.
  destruct e as [|x t]; [cbn in H1; discriminate|].
  cbn in H1. injection H1 as ->.
  split; [discriminate|]. split; [reflexivity|].
  rewrite Hsum. cbn [max_drawdown summary_of]. apply drawdown_of_fin. cbn. lra.
Qed.

(** X14: while the reported equity stays positive the max drawdown is
    above -1 (a loss of less than 100 percent), and while it stays
    non-negative the max drawdown is at least -1. *)
Theorem max_drawdown_lower_bound (self : Backtester) (strat_rets : list xreal)
        (e : list R) (summary : Summary) :
  snd (run self) = Ok (strat_rets, map XFin e, summary) ->
  exists d,
    max_drawdown summary = XFin d /\
    ((forall x, In x e -> 0 <= x) -> -1 <= d) /\
    ((forall x, In x e -> 0 < x) -> -1 < d).
Proof.
  intros Hrun. apply run_reports_drawdown in Hrun.
  destruct Hrun as (Hne & H1 & Hmd).
  exists (min_drawdown e). split; [exact Hmd|].
  destruct (min_drawdown_attained Hne) as (i & Hi & ->).
  assert (Hp : 0 < prefix_max e i) by (apply prefix_max_pos; [rewrite H1; lra | exact Hi]).
  unfold drawdown_at. split; intros He.
  - assert (0 <= nth i e 0) by (apply He, nth_In, Hi).
    assert (0 <= nth i e 0 / prefix_max e i); [|lra].
    apply Rmult_le_pos; [assumption|]. left. apply Rinv_0_lt_compat, Hp.
  - assert (0 < nth i e 0) by (apply He, nth_In, Hi).
    assert (0 < nth i e 0 / prefix_max e i); [|lra].
    apply Rdiv_lt_0_compat; assumption.
Qed.

End ExactDrawdown.

(** ** The example strategies in exact arithmetic *)

Section ExactStrategies.
Local Existing Instance XR.
Local Existing Instance XR_laws.
Local Existing Instance XR_nan_laws.
Local Open Scope R_scope.

Lemma int_signals_zeros (f : list xreal -> list Z) (ps : list R) :
  f (map XFin ps) = repeat 0%Z (length (map XFin ps)) ->
  int_signals (FO:=XR) f (map XFin ps) = repeat (XFin 0) (length ps).
Proof.
  intros Hf. unfold int_signals. rewrite Hf, map_repeat, length_map. reflexivity.
Qed.

(** X15: on a history of at least two bars that is shorter than one of
    the windows, a backtest of [ma_crossover_strategy] is flat: all
    strategy returns are 0, the equity stays at 1, and total return,
    Sharpe ratio and max drawdown are 0.  The same holds for
    [mean_reversion_strategy] on a history shorter than the lookback,
    or with a lookback of 0 or 1. *)
Theorem short_history_backtest_is_flat (ps : list R) (short long lookback : nat)
        (z_entry : xreal) :
  (2 <= length ps)%nat ->
  (forall p, In p ps -> p <> 0) ->
  let flat :=
      Ok (repeat (XFin 0) (length ps), repeat (XFin 1) (length ps),
          {| total_return := XFin 0; sharpe := XFin 0; max_drawdown := XFin 0 |}) in
  ((length ps < short \/ length ps < long)%nat ->
   snd (run (__init__ (map XFin ps)
                      (int_signals (fun q => ma_crossover_strategy q short long)))) = flat) /\
  ((length ps < lookback \/ lookback <= 1)%nat ->
   snd (run (__init__ (map XFin ps)
                      (int_signals (fun q => mean_reversion_strategy q lookback z_entry)))) = flat).
Proof.
  intros HN Hnz flat. split; intros H.
  - rewrite (@flat_signal_exact ps _ HN Hnz); [reflexivity|].
    apply int_signals_zeros. apply (ma_crossover_short_history (FO:=XR)).
    rewrite length_map. exact H.
  - rewrite (@flat_signal_exact ps _ HN Hnz); [reflexivity|].
    apply int_signals_zeros. apply (mean_reversion_short_history (FO:=XR)).
    rewrite length_map. exact H.
Qed.

(** *** Constant prices *)

Lemma np_sum_const (c : R) (k : nat) :
  np_sum (repeat (XFin c) (S k)) = XFin (INR (S k) * c).
Proof.
  replace (repeat (XFin c) (S k)) with (map XFin (repeat c (S k))) by apply map_repeat.
  rewrite np_sum_fin, Rlist_sum_repeat. reflexivity.
Qed.

Lemma notna_count_const (c : R) (n : nat) : notna_count (repeat (XFin c) n) = n.
Proof.
  rewrite repeat_XFin, notna_count_fin. apply repeat_length.
Qed.

Lemma fillna_const (c : R) (n : nat) :
  fillna fzero (repeat (XFin c) n) = repeat (XFin c) n.
Proof. unfold fillna. rewrite repeat_XFin. apply fill_fin. Qed.

Lemma of_nat_INR (n : nat) : of_nat (FO:=XR) n = XFin (INR n).
Proof. unfold of_nat. cbn [of_Z XR]. rewrite <- INR_IZR_INZ. reflexivity. Qed.

Lemma INR_S_neq_0 (k : nat) : INR (S k) <> 0.
Proof. apply not_0_INR. discriminate. Qed.

Lemma np_sum_fill_over_count (c : R) (k : nat) :
  fdiv (np_sum (fillna fzero (repeat (XFin c) (S k)))) (of_nat (S k)) = XFin c.
Proof.
  rewrite fillna_const, np_sum_const, of_nat_INR. cbn [fdiv XR].
  rewrite xdiv_fin by apply INR_S_neq_0. f_equal. field. apply INR_S_neq_0.
Qed.

(** The standard deviation of two or more equal values is 0. *)
Lemma series_std_const (c : R) (n : nat) :
  (2 <= n)%nat -> series_std (repeat (XFin c) n) = XFin 0.
Proof.
  intros Hn. destruct n as [|k]; [lia|].
  unfold series_std, series_var. cbv zeta. rewrite notna_count_const.
  destruct (Nat.leb_spec (S k) 1) as [Hle|_]; [lia|].
  rewrite np_sum_fill_over_count, map_repeat.
  cbn [isnan fsub fmul fzero of_Z XR xisnan xsub xmul].
  replace ((c - c) * (c - c)) with 0 by ring.
  rewrite np_sum_zeros, of_nat_INR. cbn [fdiv fsqrt XR].
  assert (Hd : INR (S k - 1) <> 0) by (apply not_0_INR; lia).
  rewrite (xdiv_fin 0 Hd). replace (0 / INR (S k - 1)) with 0 by (field; exact Hd).
  cbn [xsqrt]. destruct (Rlt_dec 0 0) as [H|_]; [lra|].
  rewrite sqrt_0. reflexivity.
Qed.

Lemma series_mean_const (c : R) (k : nat) :
  series_mean (repeat (XFin c) (S k)) = XFin c.
Proof.
  unfold series_mean. cbv zeta. rewrite notna_count_const.
  cbn [Nat.ltb Nat.leb]. apply np_sum_fill_over_count.
Qed.

Lemma skipn_repeat {A} (a : A) (n k : nat) : skipn k (repeat a n) = repeat a (n - k).
Proof.
  revert k. induction n as [|n IH]; intros [|k]; cbn; try reflexivity. apply IH.
Qed.

Lemma firstn_repeat {A} (a : A) (n k : nat) :
  (k <= n)%nat -> firstn k (repeat a n) = repeat a k.
Proof.
  revert k. induction n as [|n IH]; intros [|k] H; cbn; try reflexivity; try lia.
  f_equal. apply IH. lia.
Qed.

Lemma window_at_const (c : R) (n w i : nat) :
  (i < n)%nat -> (w <= S i)%nat ->
  window_at w i (repeat (XFin c) n) = repeat (XFin c) w.
Proof.
  intros Hi Hw. unfold window_at. rewrite skipn_repeat. apply firstn_repeat. lia.
Qed.

Lemma existsb_isnan_const (c : R) (n : nat) :
  existsb xisnan (repeat (XFin c) n) = false.
Proof. induction n as [|n IH]; [reflexivity | exact IH]. Qed.

(** On constant prices every z-score is missing: 0 / 0 where the
    window is full, and no rolling statistics before that. *)
Lemma z_scores_const (c : R) (n lookback i : nat) :
  (i < n)%nat ->
  isnan (nth i (z_scores (repeat (XFin c) n) lookback) fnan) = true.
Proof.
  intros Hi.
  assert (Hl : (i < length (repeat (XFin c) n))%nat) by (rewrite repeat_length; exact Hi).
  rewrite (z_scores_nth (FO:=XR)) by exact Hl.
  rewrite !(rolling_nth (FO:=XR)) by exact Hl.
  destruct (Nat.ltb_spec (S i) lookback) as [Hw|Hw];
    [apply (isnan_fdiv_r (FO:=XR)); reflexivity|].
  rewrite (@window_at_const c n lookback i Hi Hw). cbn [isnan XR].
  rewrite existsb_isnan_const.
  destruct (Nat.le_gt_cases lookback 1) as [H1|H2].
  - apply (isnan_fdiv_r (FO:=XR)).
    apply (series_std_nan (FO:=XR)). rewrite notna_count_const. exact H1.
  - rewrite (@series_std_const c lookback H2).
    destruct lookback as [|k]; [lia|]. rewrite series_mean_const.
    rewrite nth_repeat_lt by exact Hi.
    cbn [fdiv fsub XR xsub]. unfold xdiv.
    destruct (Req_dec_T 0 0) as [_|H]; [|contradiction].
    destruct (Req_dec_T (c - c) 0) as [_|H]; [reflexivity | exfalso; apply H; ring].
Qed.

(** X16: on a flat market (all prices equal) [mean_reversion_strategy]
    never trades, whatever the lookback and the threshold: the rolling
    standard deviation is 0, so the z-score is 0 / 0. *)
Theorem mean_reversion_flat_market (c : R) (n lookback : nat) (z_entry : xreal) :
  mean_reversion_strategy (repeat (XFin c) n) lookback z_entry = repeat 0%Z n.
Proof.
  pose proof (all_zero_repeat
                (mean_reversion_strategy (repeat (XFin c) n) lookback z_entry)) as Hall.
  rewrite (mean_reversion_length (FO:=XR)), repeat_length in Hall. apply Hall.
  intros i Hi. apply (mean_reversion_of_nan_z (FO:=XR)).
  - rewrite repeat_length. exact Hi.
  - apply z_scores_const, Hi.
Qed.

End ExactStrategies.

(** ** Moving averages of a rising market *)

Section ExactTrend.
Local Existing Instance XR.
Local Existing Instance XR_laws.
Local Existing Instance XR_nan_laws.
Local Open Scope R_scope.

(** The window of [w] bars that ends at bar [i], on the reals. *)
Local Abbreviation winR w i ps := (firstn w (skipn (S i - w) ps)).

Lemma skipn_nth_cons {A} (l : list A) (n : nat) (d : A) :
  (n < length l)%nat -> skipn n l = nth n l d :: skipn (S n) l.
Proof.
  revert n. induction l as [|x t IH]; intros n Hn; simpl in Hn; [lia|].
  destruct n as [|n]; [reflexivity|]. cbn [skipn nth]. apply IH. lia.
Qed.

(** Widening the window by one bar adds the bar before it. *)
Lemma window_cons (ps : list R) (w i : nat) :
  (w <= i)%nat -> (i < length ps)%nat ->
  winR (S w) i ps = nth (i - w) ps 0 :: winR w i ps.
Proof.
  intros Hw Hi. replace (S i - S w)%nat with (i - w)%nat by lia.
  rewrite (skipn_nth_cons ps 0) by lia.
  cbn [firstn]. replace (S (i - w)) with (S i - w)%nat by lia. reflexivity.
Qed.

Lemma window_length (ps : list R) (w i : nat) :
  (w <= S i)%nat -> (i < length ps)%nat -> length (winR w i ps) = w.
Proof. intros Hw Hi. rewrite length_firstn, length_skipn. lia. Qed.

(** A value below every bar of the window is below the window's mean. *)
Lemma below_window_sum (ps : list R) (x : R) (i w : nat) :
  (i < length ps)%nat -> (w <= S i)%nat ->
  (forall j, (S i - w <= j <= i)%nat -> x < nth j ps 0) ->
  (1 <= w)%nat -> x * INR w < Rlist_sum (winR w i ps).
Proof.
  intros Hi. induction w as [|w IH]; intros Hw Hx H1; [lia|].
  rewrite window_cons by lia. cbn [Rlist_sum fold_right]. fold (Rlist_sum (winR w i ps)).
  rewrite S_INR.
  assert (Hhead : x < nth (i - w) ps 0) by (apply Hx; lia).
  destruct w as [|w'].
  - cbn [INR firstn Rlist_sum fold_right]. lra.
  - assert (x * INR (S w') < Rlist_sum (winR (S w') i ps)).
    { apply IH; [lia | | lia]. intros j Hj. apply Hx. lia. }
    lra.
Qed.

(** In a rising market the mean of a longer window is below the mean
    of a shorter one (cross-multiplied). *)
Lemma longer_window_lower_mean (ps : list R) (i s k : nat) :
  strictly_increasing ps ->
  (i < length ps)%nat -> (1 <= s)%nat -> (1 <= k)%nat -> (s + k <= S i)%nat ->
  Rlist_sum (winR (s + k) i ps) * INR s < Rlist_sum (winR s i ps) * INR (s + k).
Proof.
  intros Hinc Hi Hs. induction k as [|k IH]; intros Hk Hle; [lia|].
  replace (s + S k)%nat with (S (s + k)) by lia.
  rewrite window_cons by lia. cbn [Rlist_sum fold_right].
  fold (Rlist_sum (winR (s + k) i ps)). rewrite S_INR.
  assert (Hnew : nth (i - (s + k)) ps 0 * INR s < Rlist_sum (winR s i ps)).
  { apply below_window_sum; [exact Hi | lia | | exact Hs].
    intros j Hj. apply Hinc. lia. }
  destruct k as [|k'].
  - replace (s + 0)%nat with s in * by lia. lra.
  - assert (Rlist_sum (winR (s + S k') i ps) * INR s <
            Rlist_sum (winR s i ps) * INR (s + S k')) by (apply IH; lia).
    lra.
Qed.

(** The mean of a non-empty window of numbers. *)
Lemma series_mean_fin (l : list R) :
  l <> [] -> series_mean (map XFin l) = XFin (Rlist_sum l / INR (length l)).
Proof.
  intros Hne. unfold series_mean. cbv zeta. rewrite notna_count_fin.
  destruct l as [|x t]; [congruence|].
  cbn [length Nat.ltb Nat.leb]. unfold fillna. rewrite fill_fin.
  rewrite np_sum_fin, of_nat_INR.
  cbn [fdiv XR]. rewrite xdiv_fin by apply INR_S_neq_0. reflexivity.
Qed.

Lemma existsb_isnan_fin (l : list R) : existsb xisnan (map XFin l) = false.
Proof. induction l as [|x t IH]; [reflexivity | exact IH]. Qed.

(** The moving average of a series of numbers, once the window is full. *)
Lemma rolling_mean_fin (ps : list R) (w i : nat) :
  (i < length ps)%nat -> (1 <= w <= S i)%nat ->
  nth i (rolling w series_mean (map XFin ps)) XNan =
  XFin (Rlist_sum (winR w i ps) / INR w).
Proof.
  intros Hi Hw.
  rewrite (rolling_nth (FO:=XR)) by (rewrite length_map; exact Hi).
  destruct (Nat.ltb_spec (S i) w) as [H|_]; [lia|].
  unfold window_at. rewrite skipn_map, firstn_map. cbn [isnan XR].
  rewrite existsb_isnan_fin, series_mean_fin.
  - rewrite window_length by lia. reflexivity.
  - intros E. pose proof (@window_length ps w i) as Hl. rewrite E in Hl.
    cbn [length] in Hl. lia.
Qed.

(** X17: in a market that rises at every bar, [ma_crossover_strategy]
    with 1 <= short < long is long (signal 1) at every bar from the
    first one where the long moving average is available. *)
Theorem ma_crossover_uptrend (ps : list R) (short long i : nat) :
  strictly_increasing ps ->
  (1 <= short < long)%nat ->
  (i < length ps)%nat -> (long <= S i)%nat ->
  nth i (ma_crossover_strategy (map XFin ps) short long) 0%Z = 1%Z.
Proof.
  intros Hinc [Hs Hsl] Hi Hl.
  rewrite (ma_crossover_nth (FO:=XR)) by (rewrite length_map; exact Hi).
  rewrite !rolling_mean_fin by lia.
  pose proof (@longer_window_lower_mean ps i short (long - short) Hinc Hi Hs) as Hlt.
  replace (short + (long - short))%nat with long in Hlt by lia.
  specialize (Hlt ltac:(lia) ltac:(lia)).
  assert (H0s : 0 < INR short) by (apply lt_0_INR; lia).
  assert (H0l : 0 < INR long) by (apply lt_0_INR; lia).
  assert (Hmean : Rlist_sum (winR long i ps) / INR long <
                  Rlist_sum (winR short i ps) / INR short).
  { apply (Rmult_lt_reg_r (INR long * INR short)); [apply Rmult_lt_0_compat; assumption|].
    replace (Rlist_sum (winR long i ps) / INR long * (INR long * INR short))
      with (Rlist_sum (winR long i ps) * INR short) by (field; lra).
    replace (Rlist_sum (winR short i ps) / INR short * (INR long * INR short))
      with (Rlist_sum (winR short i ps) * INR long) by (field; lra).
    exact Hlt. }
  unfold fgtb, fltb. cbn [fleb feqb XR xleb xeqb].
  destruct (Rle_dec (Rlist_sum (winR long i ps) / INR long)
                    (Rlist_sum (winR short i ps) / INR short)) as [_|H]; [|lra].
  destruct (Req_dec_T (Rlist_sum (winR long i ps) / INR long)
                      (Rlist_sum (winR short i ps) / INR short)) as [H|_]; [lra|].
  destruct (Rle_dec (Rlist_sum (winR short i ps) / INR short)
                    (Rlist_sum (winR long i ps) / INR long)) as [H|_]; [lra|].
  reflexivity.
Qed.

Lemma Rlist_sum_opp (l : list R) : Rlist_sum (map Ropp l) = - Rlist_sum l.
Proof.
  induction l as [|x t IH]; cbn [map Rlist_sum fold_right].
  - ring.
  - fold (Rlist_sum (map Ropp t)). fold (Rlist_sum t). rewrite IH. ring.
Qed.

Lemma nth_map_Ropp (ps : list R) (i : nat) :
  (i < length ps)%nat -> nth i (map Ropp ps) 0 = - nth i ps 0.
Proof. intros Hi. apply (map_nth_lt Ropp ps 0 0 Hi). Qed.

(** X18: in a market that falls at every bar, [ma_crossover_strategy]
    with 1 <= short < long is short (signal -1) at every bar from the
    first one where the long moving average is available. *)
Theorem ma_crossover_downtrend (ps : list R) (short long i : nat) :
  strictly_decreasing ps ->
  (1 <= short < long)%nat ->
  (i < length ps)%nat -> (long <= S i)%nat ->
  nth i (ma_crossover_strategy (map XFin ps) short long) 0%Z = (-1)%Z.
Proof.
  intros Hdec [Hs Hsl] Hi Hl.
  rewrite (ma_crossover_nth (FO:=XR)) by (rewrite length_map; exact Hi).
  rewrite !rolling_mean_fin by lia.
  assert (Hinc : strictly_increasing (map Ropp ps)).
  { intros a b Hab. rewrite length_map in Hab.
    rewrite !nth_map_Ropp by lia. pose proof (Hdec a b Hab). lra. }
  assert (Hi' : (i < length (map Ropp ps))%nat) by (rewrite length_map; exact Hi).
  pose proof (@longer_window_lower_mean (map Ropp ps) i short (long - short)
                                         Hinc Hi' Hs) as Hlt.
  replace (short + (long - short))%nat with long in Hlt by lia.
  specialize (Hlt ltac:(lia) ltac:(lia)).
  rewrite !skipn_map, !firstn_map, !Rlist_sum_opp in Hlt.
  assert (H0s : 0 < INR short) by (apply lt_0_INR; lia).
  assert (H0l : 0 < INR long) by (apply lt_0_INR; lia).
  assert (Hmean : Rlist_sum (winR short i ps) / INR short <
                  Rlist_sum (winR long i ps) / INR long).
  { apply (Rmult_lt_reg_r (INR long * INR short)); [apply Rmult_lt_0_compat; assumption|].
    replace (Rlist_sum (winR long i ps) / INR long * (INR long * INR short))
      with (Rlist_sum (winR long i ps) * INR short) by (field; lra).
    replace (Rlist_sum (winR short i ps) / INR short * (INR long * INR short))
      with (Rlist_sum (winR short i ps) * INR long) by (field; lra).
    lra. }
  unfold fgtb, fltb. cbn [fleb feqb XR xleb xeqb].
  destruct (Rle_dec (Rlist_sum (winR long i ps) / INR long)
                    (Rlist_sum (winR short i ps) / INR short)) as [H|_]; [lra|].
  destruct (Rle_dec (Rlist_sum (winR short i ps) / INR short)
                    (Rlist_sum (winR long i ps) / INR long)) as [_|H]; [|lra].
  destruct (Req_dec_T (Rlist_sum (winR short i ps) / INR short)
                      (Rlist_sum (winR long i ps) / INR long)) as [H|_]; [lra|].
  reflexivity.
Qed.

End ExactTrend.

(** ** The Sharpe ratio against the mean and the sample standard deviation *)

Section ExactSharpe.
Local Existing Instance XR.
Local Existing Instance XR_laws.
Local Open Scope R_scope.















End ExactSharpe.

(** ** The further properties on concrete inputs *)

Section Binary64Strategies.
Local Existing Instance B64.
Local Existing Instance B64_laws.
Local Existing Instance B64_nan_laws.
Local Open Scope float_scope.

(** The crossover on five bars with windows of 2 and 3 bars, and the
    z-score strategy with a lookback of 3 bars. *)
Example ma_crossover_five_bars :
  ma_crossover_strategy (FO:=B64) [1; 2; 3; 2; 1] 2 3 = [0; 0; 1; 1; -1]%Z.
Proof. reflexivity. Qed.

Example mean_reversion_eight_bars :
  mean_reversion_strategy (FO:=B64) [1; 2; 3; 10; 3; 3; 3; -5] 3 1 =
  [0; 0; 0; -1; 0; 0; 0; 1]%Z.
Proof. reflexivity. Qed.

Lemma ma_crossover_warm_up_witness :
  (length three_bars < 50)%nat /\
  ma_crossover_default three_bars = repeat 0%Z (length three_bars).
Proof.
  split; [simpl; lia|].
  apply (proj2 (ma_crossover_warm_up (FL:=B64_laws) (NL:=B64_nan_laws) three_bars 20 50)).
  right. simpl. lia.
Defined.

Lemma mean_reversion_warm_up_witness :
  (length three_bars < 20)%nat /\
  mean_reversion_default three_bars = repeat 0%Z (length three_bars).
Proof.
  split; [simpl; lia|].
  apply (proj2 (mean_reversion_warm_up (FL:=B64_laws) (NL:=B64_nan_laws)
                                       three_bars 20 fone)).
  left. simpl. lia.
Defined.

Lemma returns_and_lagged_signals_are_numbers_witness :
  isnan (nth 0 [nan; 1; 1] nan) = true /\
  nth 1 (shifted_signals_of (FO:=B64) [nan; 1; 1]) nan = 0.
Proof.
  split; [reflexivity|].
  apply (proj2 (proj2 (returns_and_lagged_signals_are_numbers
                         (FL:=B64_laws) three_bars [nan; 1; 1]))).
  - simpl. lia.
  - reflexivity.
Defined.

Lemma run_depends_on_returns_only_witness :
  snd (compute_returns (__init__ three_bars long_strategy)) =
  snd (compute_returns (__init__ (FO:=B64) [200; 220; 198] long_strategy)) /\
  snd (run (__init__ three_bars long_strategy)) =
  snd (run (__init__ (FO:=B64) [200; 220; 198] long_strategy)).
Proof.
  split; [reflexivity|].
  apply (run_depends_on_returns_only
           (b1 := __init__ three_bars long_strategy)
           (b2 := __init__ (FO:=B64) [200; 220; 198] long_strategy)); reflexivity.
Defined.

Lemma sharpe_needs_two_observations_witness :
  (notna_count (excess_returns (FO:=B64) [0.5%float] 0%float) <= 1)%nat /\
  exists v, _sharpe [0.5] 0 (__init__ one_bar flat_strategy) =
            (__init__ one_bar flat_strategy, Ok v) /\ isnan v = true.
Proof.
  split; [vm_compute; lia|].
  apply (sharpe_needs_two_observations (FL:=B64_laws) (NL:=B64_nan_laws)).
  vm_compute. lia.
Defined.

Lemma one_bar_run_witness :
  exists summary,
    run (__init__ one_bar leveraged_strategy) =
    (__init__ one_bar leveraged_strategy, Ok ([0], [1], summary)) /\
    isnan (sharpe summary) = true.
Proof.
  destruct (one_bar_run (FL:=B64_laws) (NL:=B64_nan_laws)
                        (__init__ one_bar leveraged_strategy) (p := 100))
    as (s & Hrun & _ & Hs); [reflexivity | reflexivity |].
  exists s. split; [exact Hrun | exact Hs].
Defined.

End Binary64Strategies.

Section ExactWitnesses.
Local Existing Instance XR.
Local Existing Instance XR_laws.
Local Existing Instance XR_nan_laws.
Local Open Scope R_scope.

Lemma three_prices_nonzero : forall p, In p [100; 110; 99] -> p <> 0.
Proof. intros p [<-|[<-|[<-|[]]]]; lra. Qed.

Lemma three_prices_positive : forall p, In p [100; 110; 99] -> 0 < p.
Proof. intros p [<-|[<-|[<-|[]]]]; lra. Qed.

Lemma compute_returns_scale_invariant_witness :
  snd (compute_returns (__init__ (map XFin (map (Rmult 2) [100; 110; 99]))
                                 (flat_strategy (FO:=XR)))) =
  snd (compute_returns (__init__ (map XFin [100; 110; 99]) (flat_strategy (FO:=XR)))).
Proof.
  apply compute_returns_scale_invariant; [lra | exact three_prices_nonzero].
Defined.

Lemma long_strategy_is_buy_and_hold_witness :
  exists strat_rets summary,
    run (__init__ (map XFin [100; 110; 99]) (long_strategy (FO:=XR))) =
    (__init__ (map XFin [100; 110; 99]) (long_strategy (FO:=XR)),
     Ok (strat_rets, [XFin (100 / 100); XFin (110 / 100); XFin (99 / 100)], summary)) /\
    total_return summary = XFin (99 / 100 - 1).
Proof.
  apply (@long_strategy_is_buy_and_hold [100; 110; 99]);
    [discriminate | exact three_prices_nonzero].
Defined.

Lemma long_strategy_drawdown_witness :
  exists strat_rets equity summary,
    run (__init__ (map XFin [100; 110; 99]) (long_strategy (FO:=XR))) =
    (__init__ (map XFin [100; 110; 99]) (long_strategy (FO:=XR)),
     Ok (strat_rets, equity, summary)) /\
    max_drawdown summary = XFin (min_drawdown [100; 110; 99]) /\
    min_drawdown [100; 110; 99] < 0.
Proof.
  destruct (@long_strategy_drawdown [100; 110; 99])
    as (sr & eq & s & Hrun & Hmd & _ & Hdip);
    [discriminate | exact three_prices_positive |].
  exists sr, eq, s. split; [exact Hrun|]. split; [exact Hmd|].
  apply Hdip. exists 1%nat, 2%nat. split; [simpl; lia | cbn; lra].
Defined.

Lemma long_three_bars_run :
  exists strat_rets summary,
    snd (run (__init__ (map XFin [100; 110; 99]) (long_strategy (FO:=XR)))) =
    Ok (strat_rets, map XFin (map (fun p => p / 100) [100; 110; 99]), summary).
Proof.
  pose proof (run_ok (__init__ (map XFin [100; 110; 99]) (long_strategy (FO:=XR)))) as Hrun.
  cbv zeta in Hrun. rewrite Hrun; [|discriminate | reflexivity].
  cbn [snd prices strategy_func __init__].
  rewrite (@long_equity [100; 110; 99] three_prices_nonzero).
  eexists _, _. reflexivity.
Qed.

Lemma max_drawdown_lower_bound_witness :
  exists d,
    -1 < d /\
    exists strat_rets summary,
      snd (run (__init__ (map XFin [100; 110; 99]) (long_strategy (FO:=XR)))) =
      Ok (strat_rets, map XFin (map (fun p => p / 100) [100; 110; 99]), summary) /\
      max_drawdown summary = XFin d.
Proof.
  destruct long_three_bars_run as (sr & s & Hrun).
  destruct (max_drawdown_lower_bound _ _ Hrun) as (d & Hd & _ & Hpos).
  exists d. split.
  - apply Hpos. intros x [<-|[<-|[<-|[]]]]; lra.
  - exists sr, s. split; [exact Hrun | exact Hd].
Defined.

Lemma short_history_backtest_is_flat_witness :
  snd (run (__init__ (map XFin [100; 110; 99])
                     (int_signals (FO:=XR) ma_crossover_default))) =
  Ok (repeat (XFin 0) 3, repeat (XFin 1) 3,
      {| total_return := XFin 0; sharpe := XFin 0; max_drawdown := XFin 0 |}) /\
  snd (run (__init__ (map XFin [100; 110; 99])
                     (int_signals (FO:=XR) mean_reversion_default))) =
  Ok (repeat (XFin 0) 3, repeat (XFin 1) 3,
      {| total_return := XFin 0; sharpe := XFin 0; max_drawdown := XFin 0 |}).
Proof.
  destruct (@short_history_backtest_is_flat [100; 110; 99] 20 50 20 (XFin 1))
    as [Hc Hr]; [simpl; lia | exact three_prices_nonzero |].
  split; [apply Hc; right | apply Hr; left]; simpl; lia.
Defined.

Lemma ma_crossover_uptrend_witness :
  nth 2 (ma_crossover_strategy (map XFin [1; 2; 3]) 1 2) 0%Z = 1%Z.
Proof.
  apply ma_crossover_uptrend; try (simpl; lia).
  intros a b Hab. simpl in Hab.
  destruct a as [|[|a]], b as [|[|[|b]]]; try lia; cbn; lra.
Defined.

Lemma ma_crossover_downtrend_witness :
  nth 2 (ma_crossover_strategy (map XFin [3; 2; 1]) 1 2) 0%Z = (-1)%Z.
Proof.
  apply ma_crossover_downtrend; try (simpl; lia).
  intros a b Hab. simpl in Hab.
  destruct a as [|[|a]], b as [|[|[|b]]]; try lia; cbn; lra.
Defined.

End ExactWitnesses.
